(** * Optimal experimental design (oed_fcs): aging model and design constructors

    A shallow embedding of
    - [oed/parametric_function_library/aging_model.py]
      (classes [Aging_Model] and [AgingModel]),
    - [src/oed/experiments/experiment_library/d_design.py] ([DDesign]),
    - [src/oed/experiments/experiment_library/point_prediction_design.py]
      ([PointPredictionDesign]).

    Numbers.  Python and numpy floats are modelled by the real numbers of the
    Standard Library: [+], [-], [*], [/] are the field operations, [np.exp] is
    [exp], [np.log] is [ln], and [b ** e] with a float exponent is [Rpower b e].
    This is the exact real arithmetic that the floating point code
    approximates; it agrees with the mathematical functions on the domain the
    model is written for (positive bases and arguments of [np.log], non-zero
    divisors).  Rounding, [inf] and [nan] are outside the model.

    Exceptions.  A Python call either returns a value or raises; this is the
    type [result].  Only the exception classes that the embedded code can
    raise itself are listed.

    Collaborators.  The minimizer, the statistical model and the parametric
    function with uncertainty reach the constructors as objects of interfaces
    that are not among the sources; they are parameters of the embedding.
    Two parts of the repository that the properties need are modelled from
    the spec and marked so: the Fisher information matrix of the statistical
    model and the metric [StdParameterEstimations]. *)

Set Warnings "-notation-overridden,-ambiguous-paths".
Set Warnings "-redundant-canonical-projection,-deprecated".

From Stdlib Require Import String.
From Stdlib Require Import Reals List ZArith Lia Lra.
From Stdlib Require Import ClassicalEpsilon FunctionalExtensionality.
From HB Require structures.
From mathcomp Require ssreflect ssrfun ssrbool eqtype ssrnat seq choice.
From mathcomp Require fintype finfun bigop finset fingroup perm ssralg matrix.
Import ListNotations.
Local Open Scope R_scope.

(** ** Python results *)

Inductive exception : Type :=
| AttributeError
| IndexError
| ValueError
| NotImplementedError.

Inductive result (A : Type) : Type :=
| Ok (a : A)
| Raise (e : exception).
Arguments Ok {A} a.
Arguments Raise {A} e.

Definition bind {A B : Type} (r : result A) (k : A -> result B) : result B :=
  match r with
  | Ok a => k a
  | Raise e => Raise e
  end.

Notation "x <- r ;; k" := (bind r (fun x => k))
  (at level 61, r at next level, right associativity).

(** ** numpy arrays *)

(** A one-dimensional array of floats. *)
Definition vec : Type := list R.

(** [v[i]] for a literal index [i >= 0]: numpy raises [IndexError] out of
    range. *)
Definition getitem (v : vec) (i : nat) : result R :=
  match nth_error v i with
  | Some r => Ok r
  | None => Raise IndexError
  end.

(** Element-wise binary operation on two one-dimensional arrays, with numpy's
    broadcasting: equal lengths pair up, a length-one array is stretched,
    anything else raises [ValueError]. *)
Fixpoint zip_with (op : R -> R -> R) (a b : vec) : vec :=
  match a, b with
  | u :: a', w :: b' => op u w :: zip_with op a' b'
  | _, _ => []
  end.

Definition broadcast (op : R -> R -> R) (a b : vec) : result vec :=
  if Nat.eqb (length a) (length b) then Ok (zip_with op a b)
  else match a, b with
       | [u], _ => Ok (map (fun w => op u w) b)
       | _, [w] => Ok (map (fun u => op u w) a)
       | _, _ => Raise ValueError
       end.

(** [np.sum] of a one-dimensional array. *)
Definition np_sum (a : vec) : R := fold_right Rplus 0 a.

(** [b ** e] with a float exponent. *)
Definition np_power (b e : R) : R := Rpower b e.

(** ** class Aging_Model *)

Module Aging_Model.

Record obj : Type := Build {
  SoCref : R;
  Tref : R;
  EOL_C : R;
  t_end : R;
  t : vec
}.

(** [Aging_Model()]: the defaults of [__init__]. *)
Definition default : obj :=
  {| SoCref := 5 / 10;
     Tref := 29615 / 100;
     EOL_C := 9 / 10;
     t_end := 520;
     t := [7; 35; 63; 119; 175; 231] |}.

Section Methods.
Variable self : obj.

Definition x_ref_cal (param : R) : R :=
  (1 - EOL_C self) / np_power (t_end self * (24 * 3600)) param.

Definition d_SoC_cal (SoC : R) (param : vec) : result R :=
  p0 <- getitem param 0 ;;
  Ok (np_power (SoC / SoCref self) (1 / p0)).

Definition d_T_cal (T : R) (param : vec) : result R :=
  p0 <- getitem param 0 ;;
  Ok (exp (- p0 * ((1 / T) - (1 / Tref self)))).

(** The product of three scalars and the array
    [(self.t * (24 * 3600)) ** theta[2]]; the sub-expressions are
    evaluated left to right. *)
Definition Calendar_Aging (theta x : vec) : result vec :=
  th2 <- getitem theta 2 ;;
  let a := x_ref_cal th2 in
  x0 <- getitem x 0 ;;
  th0 <- getitem theta 0 ;;
  b <- d_SoC_cal x0 [th0] ;;
  x1 <- getitem x 1 ;;
  th1 <- getitem theta 1 ;;
  c <- d_T_cal x1 [th1] ;;
  th2' <- getitem theta 2 ;;
  Ok (map (fun tk => a * b * c * np_power (tk * (24 * 3600)) th2')
          (t self)).

(** The method returns Python's [None] (here [Ok None]) when [index] is
    none of 0, 1, 2. *)
Definition partial_derivative_Calendar_Aging
    (theta x : vec) (index : Z) : result (option vec) :=
  if Z.eqb index 0 then
    f <- Calendar_Aging theta x ;;
    x0 <- getitem x 0 ;;
    th0 <- getitem theta 0 ;;
    Ok (Some (map (fun fk => - fk * ln (x0 / SoCref self) / th0 ^ 2) f))
  else if Z.eqb index 1 then
    f <- Calendar_Aging theta x ;;
    x1 <- getitem x 1 ;;
    Ok (Some (map (fun fk => - fk * ((1 / x1) - (1 / Tref self))) f))
  else if Z.eqb index 2 then
    f <- Calendar_Aging theta x ;;
    g <- broadcast Rmult (map Ropp f)
           (map (fun tk => ln (t_end self * (24 * 3600))
                           - ln (tk * (24 * 3600))) (t self)) ;;
    Ok (Some g)
  else Ok None.

End Methods.

End Aging_Model.

(** ** class AgingModel(ParametricFunction) *)

Module AgingModel.

(** [self._aging_model = Aging_Model()] *)
Definition _aging_model : Aging_Model.obj := Aging_Model.default.

Definition __call__ (theta x : vec) : result vec :=
  Aging_Model.Calendar_Aging _aging_model theta x.

Definition partial_derivative (theta x : vec) (parameter_index : Z)
  : result (option vec) :=
  Aging_Model.partial_derivative_Calendar_Aging
    _aging_model theta x parameter_index.

Definition second_partial_derivative
    (theta x : vec) (parameter1_index parameter2_index : Z) : result vec :=
  Raise NotImplementedError.

End AgingModel.

(** ** Two-dimensional arrays

    A two-dimensional numpy array is a shape together with a C-contiguous
    buffer: entry [(i, j)] of an array with [ncols] columns is the buffer's
    element [i * ncols + j]. *)

Record ndarray2 : Type := {
  nrows : nat;
  ncols : nat;
  buf : list R
}.

Definition entry (A : ndarray2) (i j : nat) : R :=
  nth (i * ncols A + j) (buf A) 0.

Definition getrow (A : ndarray2) (i : nat) : vec :=
  firstn (ncols A) (skipn (i * ncols A) (buf A)).

(** [v.reshape(n, d)] of a one-dimensional array, for [n], [d] >= 0: the
    buffer is kept and the shape changes; a size other than [n * d] raises
    [ValueError]. *)
Definition reshape2 (v : vec) (n d : nat) : result ndarray2 :=
  if Nat.eqb (length v) (n * d)
  then Ok {| nrows := n; ncols := d; buf := v |}
  else Raise ValueError.

(** [np.concatenate((A, B), axis=0)] (the default axis is 0 as well): the
    rows of [B] after the rows of [A]; differing row lengths raise
    [ValueError]. *)
Definition concatenate0 (A B : ndarray2) : result ndarray2 :=
  if Nat.eqb (ncols A) (ncols B)
  then Ok {| nrows := nrows A + nrows B;
             ncols := ncols A;
             buf := buf A ++ buf B |}
  else Raise ValueError.

(** [l * n] on a Python list: [n] copies of [l] in sequence. *)
Fixpoint list_mul {A : Type} (l : list A) (n : nat) : list A :=
  match n with
  | O => []
  | S k => l ++ list_mul l k
  end.

(** ** Interfaces of the collaborators

    The constructors below receive objects of these interfaces; only the
    methods that the constructors call are listed.  A call is modelled by its
    outcome (a value or an exception); each constructor calls its minimizer
    once. *)

(** [Minimizer.__call__(function, lower_bounds, upper_bounds)] *)
Record Minimizer : Type := {
  minimize : (vec -> result R) -> vec -> vec -> result vec
}.

(** [StatisticalModel.calculate_determinant_fisher_information_matrix
     (theta, x0)] *)
Record StatisticalModel : Type := {
  calculate_determinant_fisher_information_matrix :
    vec -> ndarray2 -> result R
}.

(** [ParametricFunctionWithUncertainty.calculate_quantile(x, alpha)]; a scalar
    result is an array with one element. *)
Record ParametricFunctionWithUncertainty : Type := {
  calculate_quantile : vec -> R -> result vec
}.

(** The [Experiment] interface: the properties [experiment] and [name]. *)
Record Experiment : Type := {
  experiment : ndarray2;
  name : string
}.

(** [e.experiment] where [e] may be Python's [None]. *)
Definition getattr_experiment (e : option Experiment) : result ndarray2 :=
  match e with
  | Some e' => Ok (experiment e')
  | None => Raise AttributeError
  end.

(** ** class DDesign(Experiment) *)

Module DDesign.

Definition name : string := "D-opt"%string.

Section Init.
Variable number_designs : nat.
Variables lower_bounds_design upper_bounds_design initial_theta : vec.
Variable statistical_model : StatisticalModel.
Variable minimizer : Minimizer.
Variable previous_experiment : option Experiment.

(** The [lambda x: ...] passed as [function]. *)
Definition objective (x : vec) : result R :=
  prev <- getattr_experiment previous_experiment ;;
  new <- reshape2 x number_designs (length lower_bounds_design) ;;
  x0 <- concatenate0 prev new ;;
  det <- calculate_determinant_fisher_information_matrix
           statistical_model initial_theta x0 ;;
  Ok (- det).

Definition lower_bounds : vec :=
  list_mul lower_bounds_design number_designs.

Definition upper_bounds : vec :=
  list_mul upper_bounds_design number_designs.

(** [__init__]; the two [print] calls and the discarded [np.array] of
    line 54 leave no trace in the object.  The tuple given to
    [np.concatenate] is evaluated left to right, so
    [previous_experiment.experiment] is read before the minimizer runs. *)
Definition __init__ : result Experiment :=
  prev <- getattr_experiment previous_experiment ;;
  v <- minimize minimizer objective lower_bounds upper_bounds ;;
  new <- reshape2 v number_designs (length lower_bounds_design) ;;
  design <- concatenate0 prev new ;;
  Ok (Build_Experiment design name).

End Init.

End DDesign.

(** ** class PointPredictionDesign(Experiment) *)

Module PointPredictionDesign.

Definition name : string := "point prediction"%string.

Section Init.
Variables lower_bounds_design upper_bounds_design : vec.
Variable minimizer : Minimizer.
Variable parametric_function_with_uncertainty :
  ParametricFunctionWithUncertainty.
Variable alpha : R.

(** The [lambda x: -np.sum(... - ...)]. *)
Definition objective (x : vec) : result R :=
  qa <- calculate_quantile parametric_function_with_uncertainty x alpha ;;
  qb <- calculate_quantile parametric_function_with_uncertainty x
          (1 - alpha) ;;
  spread <- broadcast Rminus qa qb ;;
  Ok (- np_sum spread).

Definition __init__ : result Experiment :=
  v <- minimize minimizer objective
         lower_bounds_design upper_bounds_design ;;
  design <- reshape2 v 1 (length lower_bounds_design) ;;
  Ok (Build_Experiment design name).

End Init.

(** [alpha: float = 0.9] *)
Definition default_alpha : R := 9 / 10.

End PointPredictionDesign.

(** ** class StdParameterEstimations(Metric) *)

Module StdParameterEstimations.

Definition mean (a : vec) : R := np_sum a / INR (length a).

(** Modelled from the spec: the class [StdParameterEstimations] is not among
    the sources, only its test is.  The spec calls what [calculate] returns
    the "sample standard deviation" of the estimation samples: the square
    root of the sum of squared deviations from the mean, divided by the
    number of samples minus one. *)
Definition calculate (estimations_of_parameter : vec) : R :=
  sqrt (np_sum (map (fun e => (e - mean estimations_of_parameter) ^ 2)
                    estimations_of_parameter)
        / (INR (length estimations_of_parameter) - 1)).

End StdParameterEstimations.

(** ** The real numbers as a commutative ring

    Matrices and determinants are those of MathComp; this makes the real
    numbers of the Standard Library a ring in its sense.  Equality is decided
    and choice is made classically. *)

Module RealRing.
Import HB.structures.
Import ssreflect ssrfun ssrbool eqtype ssrnat seq choice ssralg.

Definition eqr (a b : R) : bool :=
  if Req_dec_T a b then true else false.

Lemma eqrP : Equality.axiom eqr.
Proof.
move=> a b; rewrite /eqr; case: (Req_dec_T a b) => H; by constructor.
Qed.

HB.instance Definition _ := hasDecEq.Build R eqrP.

Definition findr (P : pred R) (n : nat) : option R :=
  match excluded_middle_informative (exists x, P x) with
  | left ex => Some (proj1_sig (constructive_indefinite_description _ ex))
  | right _ => None
  end.

Lemma findr_correct (P : pred R) (n : nat) (x : R) :
  findr P n = Some x -> P x.
Proof.
rewrite /findr; case: (excluded_middle_informative _) => // ex [<-].
exact: (proj2_sig (constructive_indefinite_description _ ex)).
Qed.

Lemma findr_complete (P : pred R) :
  (exists x, P x) -> exists n, findr P n.
Proof.
move=> ex; exists 0%N; rewrite /findr.
by case: (excluded_middle_informative _).
Qed.

Lemma findr_extensional (P Q : pred R) :
  P =1 Q -> findr P =1 findr Q.
Proof.
move=> PQ n; have -> // : P = Q.
exact: functional_extensionality.
Qed.

HB.instance Definition _ :=
  hasChoice.Build R findr_correct findr_complete findr_extensional.

Lemma RplusA : associative Rplus.
Proof. by move=> a b c; rewrite Rplus_assoc. Qed.

HB.instance Definition _ :=
  GRing.isZmodule.Build R RplusA Rplus_comm Rplus_0_l Rplus_opp_l.

Lemma RmultA : associative Rmult.
Proof. by move=> a b c; rewrite Rmult_assoc. Qed.

Lemma R1_neq0 : R1 != R0.
Proof. by apply/eqP; exact: R1_neq_R0. Qed.

HB.instance Definition _ :=
  GRing.Zmodule_isComNzRing.Build R
    RmultA Rmult_comm Rmult_1_l Rmult_plus_distr_r R1_neq0.

End RealRing.

(** ** class GaussianNoiseModel(StatisticalModel) *)

Module GaussianNoiseModel.
Import ssreflect ssrfun ssrbool eqtype ssrnat seq choice.
Import fintype finfun bigop ssralg matrix.
Import RealRing.
Local Open Scope ring_scope.

Section Model.
(** [function.partial_derivative(theta, x, parameter_index)] of a parametric
    function with scalar output, and the noise standard deviation. *)
Variable partial_derivative : vec -> vec -> nat -> R.
Variable sigma : R.

(** Modelled from the spec: the statistical model is not among the sources
    ([DDesign] only calls it).  The row of partial derivatives of the
    parametric function at one design point:
    [Jacobian_row[i] = d f(theta, x) / d theta_i]. *)
Definition jacobian_row (theta x : vec) : 'rV[R]_(length theta) :=
  \row_(i < length theta) partial_derivative theta x i.

(** Modelled from the spec: the statistical model is not among the sources.
    The Fisher information matrix is the square matrix of size [len(theta)]
    computed as [(1/sigma^2) * sum over design points of
    (Jacobian_row^T * Jacobian_row)]. *)
Definition calculate_fisher_information_matrix
    (theta : vec) (x0 : ndarray2) : 'M[R]_(length theta) :=
  Rdiv 1 (pow sigma 2)
  *: \sum_(k < nrows x0)
       (jacobian_row theta (getrow x0 k))^T
       *m jacobian_row theta (getrow x0 k).

(** Modelled from the spec: the statistical model is not among the sources.
    The determinant of the Fisher information matrix, the D-optimality
    objective. *)
Definition calculate_determinant_fisher_information_matrix
    (theta : vec) (x0 : ndarray2) : R :=
  \det (calculate_fisher_information_matrix theta x0).

(** The model as [DDesign] receives it. *)
Definition model : StatisticalModel :=
  Build_StatisticalModel
    (fun theta x0 =>
       Ok (calculate_determinant_fisher_information_matrix theta x0)).

End Model.

End GaussianNoiseModel.

(** ** Matrices of a design *)

Module DesignMatrix.
Import ssreflect ssrfun ssrbool eqtype ssrnat seq choice.
Import fintype finfun bigop finset fingroup perm ssralg matrix.
Import RealRing.
Local Open Scope ring_scope.

(** The matrix whose rows are the Jacobian rows at the design points. *)
Definition jacobian (partial_derivative : vec -> vec -> nat -> R)
    (theta : vec) (X : ndarray2) : 'M[R]_(nrows X, length theta) :=
  \matrix_(k, i) partial_derivative theta (getrow X k) i.

(** The square matrix made of the rows [f 0], [f 1], ... of [B]. *)
Definition pick_rows {K : comNzRingType} {n p : nat}
    (f : {ffun 'I_p -> 'I_n}) (B : 'M[K]_(n, p)) : 'M[K]_p :=
  \matrix_(i, j) B (f i) j.

(** A choice of rows, taken in the order given by a permutation. *)
Definition precompose {n p : nat} (s : 'S_p) (f : {ffun 'I_p -> 'I_n})
  : {ffun 'I_p -> 'I_n} := [ffun i => f (s i)].

(** A choice of rows among the first [n] rows of a stacked matrix. *)
Definition upper_rows {n : nat} (m : nat) {p : nat}
    (f : {ffun 'I_p -> 'I_n}) : {ffun 'I_p -> 'I_(n + m)} :=
  [ffun i => lshift m (f i)].

End DesignMatrix.

(** ** AgingModel.plot

    The figure itself is built by [line_scatter] and [styled_figure], which
    are not among the sources; the embedding stops at the arrays that [plot]
    hands to [line_scatter]. *)

(** [np.arange(start, stop, 1)] for integers [start <= stop]. *)
Definition arange (start stop : nat) : vec :=
  map INR (seq start (stop - start)).

Module AgingModelPlot.

Definition x_lines : vec := arange 1 150.

(** [Aging_Model(t=x_lines)]: the other fields keep their defaults. *)
Definition model : Aging_Model.obj :=
  Aging_Model.Build
    (Aging_Model.SoCref Aging_Model.default)
    (Aging_Model.Tref Aging_Model.default)
    (Aging_Model.EOL_C Aging_Model.default)
    (Aging_Model.t_end Aging_Model.default)
    x_lines.



End AgingModelPlot.

(** ** Notions used in the statements *)

(** The value a call returned, for statements about real functions; [0]
    stands for a call that raised. *)
Definition component (k : nat) (r : result vec) : R :=
  match r with
  | Ok f => nth k f 0
  | Raise _ => 0
  end.

(** [theta] with its component [i] replaced by [r]: the argument that varies
    in a partial derivative. *)
Fixpoint setitem (v : vec) (i : nat) (r : R) : vec :=
  match v, i with
  | [], _ => []
  | _ :: v', O => r :: v'
  | a :: v', S j => a :: setitem v' j r
  end.

(** The closed form that [partial_derivative] returns for component [k] of
    the output, in terms of the value [fk] of the model there. *)
Definition closed_form_derivative
    (self : Aging_Model.obj) (index : nat) (th0 x0 x1 : R) (k : nat) (fk : R)
  : R :=
  match index with
  | 0%nat => - fk * ln (x0 / Aging_Model.SoCref self) / th0 ^ 2
  | 1%nat => - fk * ((1 / x1) - (1 / Aging_Model.Tref self))
  | _ => - fk * (ln (Aging_Model.t_end self * 86400)
                 - ln (nth k (Aging_Model.t self) 0 * 86400))
  end.

(** The predictive spread in the words of the spec: the sum, over the output
    components, of the [alpha]-quantile minus the [1 - alpha]-quantile. *)
Definition predictive_spread (q_alpha q_one_minus_alpha : vec) : R :=
  fold_right Rplus 0
    (map (fun k => nth k q_alpha 0 - nth k q_one_minus_alpha 0)
         (seq 0 (length q_alpha))).

(** [lower <= v <= upper] componentwise, for vectors of one length. *)
Definition within_bounds (lower v upper : vec) : Prop :=
  Forall2 Rle lower v /\ Forall2 Rle v upper.

(** ** Concrete collaborators for the examples *)

(** A minimizer that returns its lower bounds. *)
Definition lower_bound_minimizer : Minimizer :=
  {| minimize := fun _ lower_bounds _ => Ok lower_bounds |}.

(** A statistical model whose determinant is the number of rows. *)
Definition row_count_model : StatisticalModel :=
  {| calculate_determinant_fisher_information_matrix :=
       fun _ x0 => Ok (INR (nrows x0)) |}.

(** Previous experiments: two points in the plane, one point on the line. *)
Definition two_points : Experiment :=
  {| experiment := {| nrows := 2; ncols := 2; buf := [1; 2; 3; 4] |};
     name := "previous"%string |}.

Definition one_point : Experiment :=
  {| experiment := {| nrows := 1; ncols := 1; buf := [2] |};
     name := "previous"%string |}.

(** A predictive distribution whose quantiles are [alpha] times the point. *)
Definition scaled_quantiles : ParametricFunctionWithUncertainty :=
  {| calculate_quantile := fun x alpha => Ok (map (Rmult alpha) x) |}.

(** The parametric function [f(theta, x) = theta[0] * x[0]], by its partial
    derivative. *)
Definition proportional_derivative (theta x : vec) (i : nat) : R := nth 0 x 0.

(** * Properties *)

(** ** Results and arrays *)

Lemma nth_map_lt (g : R -> R) (l : vec) (k : nat) :
  (k < length l)%nat -> nth k (map g l) 0 = g (nth k l 0).
Proof.
  revert k; induction l as [|a l IH]; intros [|k] Hk; simpl in *;
    try lia; [reflexivity | apply IH; lia].
Qed.

Lemma zip_with_length (op : R -> R -> R) (a b : vec) :
  length a = length b -> length (zip_with op a b) = length a.
Proof.
  revert b; induction a as [|u a IH]; intros [|w b] H; simpl in *;
    try discriminate; [reflexivity | f_equal; apply IH; lia].
Qed.

Lemma nth_zip_with (op : R -> R -> R) (a b : vec) (k : nat) :
  length a = length b -> (k < length a)%nat ->
  nth k (zip_with op a b) 0 = op (nth k a 0) (nth k b 0).
Proof.
  revert b k; induction a as [|u a IH]; intros [|w b] [|k] H Hk; simpl in *;
    try discriminate; try lia; [reflexivity | apply IH; lia].
Qed.

Lemma broadcast_same_length (op : R -> R -> R) (a b : vec) :
  length a = length b -> broadcast op a b = Ok (zip_with op a b).
Proof.
  intro H. unfold broadcast. rewrite H, Nat.eqb_refl. reflexivity.
Qed.

(** ** Derivatives of the three factors *)

Section Derivatives.

Lemma derivable_pt_lim_eq (f g : R -> R) (x l l' : R) :
  (forall z, g z = f z) -> l' = l ->
  derivable_pt_lim f x l -> derivable_pt_lim g x l'.
Proof.
  intros Hfg -> Hf.
  apply derivable_pt_lim_ext with (f := f); [intro z; symmetry; apply Hfg | exact Hf].
Qed.

Lemma derivable_pt_lim_linear (a b x : R) :
  derivable_pt_lim (fun v => a * v + b) x a.
Proof.
  apply derivable_pt_lim_eq
    with (f := plus_fct (mult_real_fct a id) (fct_cte b)) (l := a * 1 + 0).
  - intro z. reflexivity.
  - ring.
  - apply derivable_pt_lim_plus.
    + apply derivable_pt_lim_scal, derivable_pt_lim_id.
    + apply derivable_pt_lim_const.
Qed.

Lemma derivable_pt_lim_exp_of (f : R -> R) (x l : R) :
  derivable_pt_lim f x l ->
  derivable_pt_lim (fun v => exp (f v)) x (exp (f x) * l).
Proof.
  intro Hf.
  apply derivable_pt_lim_eq with (f := comp exp f) (l := exp (f x) * l);
    [reflexivity | reflexivity |].
  apply derivable_pt_lim_comp; [exact Hf | apply derivable_pt_lim_exp].
Qed.

Lemma derivable_pt_lim_scaled (K : R) (f : R -> R) (x l : R) :
  derivable_pt_lim f x l ->
  derivable_pt_lim (fun v => K * f v) x (K * l).
Proof.
  intro Hf.
  apply derivable_pt_lim_eq with (f := mult_real_fct K f) (l := K * l);
    [reflexivity | reflexivity |].
  apply derivable_pt_lim_scal, Hf.
Qed.

Lemma derivable_pt_lim_recip (x : R) :
  x <> 0 -> derivable_pt_lim (fun v => 1 / v) x (- / (x ^ 2)).
Proof.
  intro Hx.
  apply derivable_pt_lim_eq
    with (f := div_fct (fct_cte 1) id) (l := (0 * id x - 1 * fct_cte 1 x) / Rsqr (id x)).
  - reflexivity.
  - unfold id, fct_cte, Rsqr. field. exact Hx.
  - apply derivable_pt_lim_div.
    + apply derivable_pt_lim_const.
    + apply derivable_pt_lim_id.
    + exact Hx.
Qed.

(** Exponent of the state-of-charge factor. *)
Lemma derivable_pt_lim_SoC_factor (A B C P th0 : R) :
  th0 <> 0 ->
  derivable_pt_lim (fun v => A * Rpower B (1 / v) * C * P) th0
    (- (A * Rpower B (1 / th0) * C * P) * ln B / th0 ^ 2).
Proof.
  intro H0.
  apply derivable_pt_lim_eq
    with (f := fun v => (A * C * P) * exp ((fun w => ln B * (1 / w)) v))
         (l := (A * C * P) * (exp (ln B * (1 / th0)) * (ln B * (- / th0 ^ 2)))).
  - intro z. unfold Rpower. rewrite (Rmult_comm (1 / z)). ring.
  - unfold Rpower. rewrite (Rmult_comm (1 / th0)). field. exact H0.
  - apply derivable_pt_lim_scaled.
    apply (derivable_pt_lim_exp_of (fun w => ln B * (1 / w))).
    apply derivable_pt_lim_scaled, derivable_pt_lim_recip, H0.
Qed.

Lemma derivable_pt_lim_T_factor (A B E P th1 : R) :
  derivable_pt_lim (fun v => A * B * exp (- v * E) * P) th1
    (- (A * B * exp (- th1 * E) * P) * E).
Proof.
  apply derivable_pt_lim_eq
    with (f := fun v => (A * B * P) * exp ((fun w => (- E) * w + 0) v))
         (l := (A * B * P) * (exp ((- E) * th1 + 0) * (- E))).
  - intro z. replace (- z * E) with (- E * z + 0) by ring. ring.
  - replace (- th1 * E) with (- E * th1 + 0) by ring. ring.
  - apply derivable_pt_lim_scaled.
    apply (derivable_pt_lim_exp_of (fun w => - E * w + 0)).
    apply derivable_pt_lim_linear.
Qed.

Lemma derivable_pt_lim_time_factor (K Te B C Tk th2 : R) :
  derivable_pt_lim
    (fun v => K / Rpower Te v * B * C * Rpower Tk v) th2
    (- (K / Rpower Te th2 * B * C * Rpower Tk th2) * (ln Te - ln Tk)).
Proof.
  assert (Hform : forall z,
    K / Rpower Te z * B * C * Rpower Tk z
    = (K * B * C) * exp ((ln Tk - ln Te) * z + 0)).
  { intro z. unfold Rpower, Rdiv.
    rewrite <- exp_Ropp.
    replace ((ln Tk - ln Te) * z + 0) with (- (z * ln Te) + z * ln Tk) by ring.
    rewrite exp_plus. ring. }
  apply derivable_pt_lim_eq
    with (f := fun v => (K * B * C) * exp ((fun w => (ln Tk - ln Te) * w + 0) v))
         (l := (K * B * C) * (exp ((ln Tk - ln Te) * th2 + 0) * (ln Tk - ln Te))).
  - exact Hform.
  - rewrite Hform. ring.
  - apply derivable_pt_lim_scaled.
    apply (derivable_pt_lim_exp_of (fun w => (ln Tk - ln Te) * w + 0)).
    apply derivable_pt_lim_linear.
Qed.

End Derivatives.

(** ** The aging model *)

Section AgingModelFacts.
Variable self : Aging_Model.obj.

(** What [Calendar_Aging] returns when [theta] has three and [x] two
    components (or more). *)
Lemma Calendar_Aging_value (th0 th1 th2 x0 x1 : R) (theta' x' : vec) :
  Aging_Model.Calendar_Aging self
    (th0 :: th1 :: th2 :: theta') (x0 :: x1 :: x')
  = Ok (map (fun tk =>
               Aging_Model.x_ref_cal self th2
               * np_power (x0 / Aging_Model.SoCref self) (1 / th0)
               * exp (- th1 * ((1 / x1) - (1 / Aging_Model.Tref self)))
               * np_power (tk * (24 * 3600)) th2)
            (Aging_Model.t self)).
Proof. reflexivity. Qed.

Lemma Calendar_Aging_needs_three (theta x : vec) :
  (length theta < 3)%nat ->
  Aging_Model.Calendar_Aging self theta x = Raise IndexError.
Proof.
  destruct theta as [|a [|b [|c r]]]; simpl; intro H; try lia; reflexivity.
Qed.

Lemma Calendar_Aging_first_two (theta x x' : vec) :
  nth_error x 0 = nth_error x' 0 ->
  nth_error x 1 = nth_error x' 1 ->
  Aging_Model.Calendar_Aging self theta x
  = Aging_Model.Calendar_Aging self theta x'.
Proof.
  intros H0 H1.
  unfold Aging_Model.Calendar_Aging, Aging_Model.d_SoC_cal,
    Aging_Model.d_T_cal, getitem.
  rewrite H0, H1. reflexivity.
Qed.

Lemma Calendar_Aging_length (theta x : vec) :
  (3 <= length theta)%nat -> (2 <= length x)%nat ->
  exists f, Aging_Model.Calendar_Aging self theta x = Ok f
            /\ length f = length (Aging_Model.t self).
Proof.
  destruct theta as [|a [|b [|c r]]]; simpl; intro H; try lia.
  destruct x as [|x0 [|x1 x']]; simpl; intro H'; try lia.
  eexists; split; [apply Calendar_Aging_value | apply length_map].
Qed.

End AgingModelFacts.

(** C7.  Whatever the arguments, [AgingModel.second_partial_derivative] raises:
    the shipped aging function does not implement the optional second
    derivative.  The exception is Python's built-in [NotImplementedError], the
    code's name for the spec's "not supported" error. *)
Theorem second_partial_derivative_raises :
  forall (theta x : vec) (parameter1_index parameter2_index : Z),
    AgingModel.second_partial_derivative
      theta x parameter1_index parameter2_index
    = Raise NotImplementedError.
Proof. reflexivity. Qed.

(** C9.  [AgingModel.__call__] reads only [x[0]] and [x[1]]: two inputs that
    agree on these two components give the same outcome for every [theta]
    (the same array, or the same exception), and with three parameters and
    two input components the outcome is an array with one entry per point of
    the time grid fixed at construction. *)
Theorem call_depends_on_first_two_components :
  forall (theta x x' : vec),
    nth_error x 0 = nth_error x' 0 ->
    nth_error x 1 = nth_error x' 1 ->
    AgingModel.__call__ theta x = AgingModel.__call__ theta x'
    /\ ((3 <= length theta)%nat -> (2 <= length x)%nat ->
        exists f, AgingModel.__call__ theta x = Ok f
                  /\ AgingModel.__call__ theta x' = Ok f
                  /\ length f = length (Aging_Model.t AgingModel._aging_model)).
Proof.
  intros theta x x' H0 H1.
  assert (E := Calendar_Aging_first_two AgingModel._aging_model theta x x' H0 H1).
  split; [exact E |].
  intros Ht Hx.
  destruct (Calendar_Aging_length AgingModel._aging_model theta x Ht Hx)
    as [f [Hf Hlen]].
  exists f. unfold AgingModel.__call__. rewrite <- E. auto.
Qed.

Lemma call_depends_on_first_two_components_witness :
  AgingModel.__call__ [18 / 10; 402; 13 / 100] [5 / 10; 300; 7]
  = AgingModel.__call__ [18 / 10; 402; 13 / 100] [5 / 10; 300; 231; 1]
  /\ exists f,
       AgingModel.__call__ [18 / 10; 402; 13 / 100] [5 / 10; 300; 7] = Ok f
       /\ AgingModel.__call__ [18 / 10; 402; 13 / 100] [5 / 10; 300; 231; 1] = Ok f
       /\ length f = 6%nat.
Proof.
  destruct (call_depends_on_first_two_components
              [18 / 10; 402; 13 / 100] [5 / 10; 300; 7] [5 / 10; 300; 231; 1]
              eq_refl eq_refl) as [E L].
  split; [exact E | apply L; simpl; lia].
Defined.

(** C1.  For a parameter index in {0, 1, 2}, [theta] with [theta[0] <> 0] and
    [x] with [x[0] > 0] and [x[1] > 0], [AgingModel.partial_derivative]
    returns an array [d] with one entry per point of the time grid, each entry
    is the closed form of the claim in the model's value [f], and entry [k] is
    the derivative, at [theta[index]], of component [k] of [AgingModel.__call__]
    as a function of the parameter [theta[index]] alone (which returns an
    array for every value of that parameter). *)
Theorem partial_derivative_is_analytic_derivative :
  forall (index : nat) (theta x : vec) (th0 x0 x1 : R),
    (index < 3)%nat ->
    (3 <= length theta)%nat ->
    getitem theta 0 = Ok th0 -> th0 <> 0 ->
    getitem x 0 = Ok x0 -> 0 < x0 ->
    getitem x 1 = Ok x1 -> 0 < x1 ->
    exists f d : vec,
      AgingModel.__call__ theta x = Ok f
      /\ AgingModel.partial_derivative theta x (Z.of_nat index) = Ok (Some d)
      /\ length d = length (Aging_Model.t AgingModel._aging_model)
      /\ (forall v : R,
            exists fv, AgingModel.__call__ (setitem theta index v) x = Ok fv)
      /\ forall k : nat,
           (k < length (Aging_Model.t AgingModel._aging_model))%nat ->
           nth k d 0
           = closed_form_derivative AgingModel._aging_model
               index th0 x0 x1 k (nth k f 0)
           /\ derivable_pt_lim
                (fun v => component k
                            (AgingModel.__call__ (setitem theta index v) x))
                (nth index theta 0)
                (nth k d 0).
Proof.
  intros index theta x th0 x0 x1 Hi Hlen Hth0 Hne Hx0 Hpos0 Hx1 Hpos1.
  destruct theta as [|a [|b [|c theta']]]; simpl in Hlen; try lia.
  destruct x as [|y0 [|y1 x']]; try discriminate.
  injection Hth0 as ->. injection Hx0 as ->. injection Hx1 as ->.
  set (self := AgingModel._aging_model).
  set (tt := Aging_Model.t self).
  unfold AgingModel.__call__, AgingModel.partial_derivative.
  fold self.
  rewrite Calendar_Aging_value.
  eexists. 
  destruct index as [|[|[|index]]]; try lia.
  - (* theta[0] *)
    eexists. split; [reflexivity |].
    split.
    { unfold Aging_Model.partial_derivative_Calendar_Aging.
      rewrite Calendar_Aging_value. reflexivity. }
    split; [rewrite !length_map; reflexivity |].
    split; [intro v; simpl setitem; rewrite Calendar_Aging_value; eexists; reflexivity |].
    intros k Hk. fold tt in Hk |- *.
    rewrite nth_map_lt by (rewrite length_map; exact Hk).
    split; [reflexivity |].
    rewrite nth_map_lt by exact Hk.
    eapply derivable_pt_lim_eq; [| | apply derivable_pt_lim_SoC_factor with (th0 := th0); exact Hne].
    + intro z. simpl setitem. rewrite Calendar_Aging_value. unfold component.
      fold tt. rewrite nth_map_lt by exact Hk. unfold np_power. reflexivity.
    + unfold np_power. simpl nth. reflexivity.
  - (* theta[1] *)
    eexists. split; [reflexivity |].
    split.
    { unfold Aging_Model.partial_derivative_Calendar_Aging.
      rewrite Calendar_Aging_value. reflexivity. }
    split; [rewrite !length_map; reflexivity |].
    split; [intro v; simpl setitem; rewrite Calendar_Aging_value; eexists; reflexivity |].
    intros k Hk. fold tt in Hk |- *.
    rewrite nth_map_lt by (rewrite length_map; exact Hk).
    split; [reflexivity |].
    rewrite nth_map_lt by exact Hk.
    eapply derivable_pt_lim_eq; [| | apply derivable_pt_lim_T_factor with (th1 := b)].
    + intro z. simpl setitem. rewrite Calendar_Aging_value. unfold component.
      fold tt. rewrite nth_map_lt by exact Hk. reflexivity.
    + simpl nth. reflexivity.
  - (* theta[2] *)
    eexists. split; [reflexivity |].
    split.
    { unfold Aging_Model.partial_derivative_Calendar_Aging.
      rewrite Calendar_Aging_value.
      change (Z.of_nat 2 =? 0)%Z with false. change (Z.of_nat 2 =? 1)%Z with false.
      change (Z.of_nat 2 =? 2)%Z with true. cbv iota.
      unfold bind at 1. rewrite broadcast_same_length by (rewrite !length_map; reflexivity).
      reflexivity. }
    assert (Hl : length (map Ropp (map (fun tk =>
                 Aging_Model.x_ref_cal self c
                 * np_power (x0 / Aging_Model.SoCref self) (1 / th0)
                 * exp (- b * ((1 / x1) - (1 / Aging_Model.Tref self)))
                 * np_power (tk * (24 * 3600)) c) tt))
                 = length (map (fun tk => ln (Aging_Model.t_end self * (24 * 3600))
                               - ln (tk * (24 * 3600))) tt))
      by (rewrite !length_map; reflexivity).
    split; [rewrite zip_with_length by exact Hl; rewrite !length_map; reflexivity |].
    split; [intro v; simpl setitem; rewrite Calendar_Aging_value; eexists; reflexivity |].
    intros k Hk. fold tt in Hk |- *.
    rewrite nth_zip_with by (try exact Hl; rewrite !length_map; exact Hk).
    rewrite !nth_map_lt by (rewrite ?length_map; exact Hk).
    split.
    { unfold closed_form_derivative. fold tt.
      replace (24 * 3600) with 86400 by lra. reflexivity. }
    eapply derivable_pt_lim_eq;
      [| | apply derivable_pt_lim_time_factor
             with (K := 1 - Aging_Model.EOL_C self)
                  (Te := Aging_Model.t_end self * (24 * 3600))
                  (B := np_power (x0 / Aging_Model.SoCref self) (1 / th0))
                  (C := exp (- b * ((1 / x1) - (1 / Aging_Model.Tref self))))
                  (Tk := nth k tt 0 * (24 * 3600))
                  (th2 := c)].
    + intro z. simpl setitem. rewrite Calendar_Aging_value. unfold component.
      fold tt. rewrite nth_map_lt by exact Hk.
      unfold np_power, Aging_Model.x_ref_cal. reflexivity.
    + unfold np_power, Aging_Model.x_ref_cal. reflexivity.
Qed.

Lemma partial_derivative_is_analytic_derivative_witness :
  exists f d : vec,
    AgingModel.__call__ [18 / 10; 402; 13 / 100] [5 / 10; 300] = Ok f
    /\ AgingModel.partial_derivative [18 / 10; 402; 13 / 100] [5 / 10; 300] 1
       = Ok (Some d)
    /\ length d = 6%nat
    /\ derivable_pt_lim
         (fun v => component 0
                     (AgingModel.__call__
                        (setitem [18 / 10; 402; 13 / 100] 1 v) [5 / 10; 300]))
         402 (nth 0 d 0).
Proof.
  destruct (partial_derivative_is_analytic_derivative
              1 [18 / 10; 402; 13 / 100] [5 / 10; 300] (18 / 10) (5 / 10) 300)
    as (f & d & Hf & Hd & Hlen & _ & Hk);
    [lia | simpl; lia | reflexivity | lra | reflexivity | lra
     | reflexivity | lra |].
  exists f, d. repeat split; try assumption.
  apply (Hk 0%nat). simpl. lia.
Defined.

(** ** Arrays: replication, reshaping, concatenation *)

Lemma list_mul_length {A : Type} (l : list A) (n : nat) :
  length (list_mul l n) = (n * length l)%nat.
Proof.
  induction n as [|n IH]; simpl; [reflexivity |].
  rewrite length_app, IH. reflexivity.
Qed.

Lemma nth_list_mul (l : vec) (n i j : nat) :
  (i < n)%nat -> (j < length l)%nat ->
  nth (i * length l + j) (list_mul l n) 0 = nth j l 0.
Proof.
  revert i; induction n as [|n IH]; intros i Hi Hj; [lia |].
  simpl. destruct i as [|i].
  - simpl. apply app_nth1. exact Hj.
  - rewrite app_nth2 by (simpl; lia).
    replace (S i * length l + j - length l)%nat with (i * length l + j)%nat
      by (simpl; lia).
    apply IH; [lia | exact Hj].
Qed.

Lemma reshape2_ok (v : vec) (n d : nat) :
  length v = (n * d)%nat ->
  reshape2 v n d = Ok {| nrows := n; ncols := d; buf := v |}.
Proof. intro H. unfold reshape2. rewrite H, Nat.eqb_refl. reflexivity. Qed.

Lemma reshape2_inv (v : vec) (n d : nat) (A : ndarray2) :
  reshape2 v n d = Ok A ->
  length v = (n * d)%nat /\ A = {| nrows := n; ncols := d; buf := v |}.
Proof.
  unfold reshape2. destruct (Nat.eqb_spec (length v) (n * d)) as [E|E];
    intro H; [injection H as <-; auto | discriminate].
Qed.

Lemma reshape2_wrong_size (v : vec) (n d : nat) :
  length v <> (n * d)%nat -> reshape2 v n d = Raise ValueError.
Proof.
  unfold reshape2. destruct (Nat.eqb_spec (length v) (n * d)); tauto.
Qed.

Lemma concatenate0_ok (A B : ndarray2) :
  ncols A = ncols B ->
  concatenate0 A B = Ok {| nrows := nrows A + nrows B;
                           ncols := ncols A;
                           buf := buf A ++ buf B |}.
Proof. intro H. unfold concatenate0. rewrite H, Nat.eqb_refl. reflexivity. Qed.

Lemma concatenate0_inv (A B C : ndarray2) :
  concatenate0 A B = Ok C ->
  ncols A = ncols B
  /\ C = {| nrows := nrows A + nrows B; ncols := ncols A;
            buf := buf A ++ buf B |}.
Proof.
  unfold concatenate0. destruct (Nat.eqb_spec (ncols A) (ncols B)) as [E|E];
    intro H; [injection H as <-; auto | discriminate].
Qed.

(** Entries of the appended rows. *)
Lemma entry_app_lower (m n d i j : nat) (a b : vec) :
  length a = (m * d)%nat ->
  entry {| nrows := m + n; ncols := d; buf := a ++ b |} (m + i) j
  = nth (i * d + j) b 0.
Proof.
  intro Ha. unfold entry; simpl.
  rewrite app_nth2 by (rewrite Ha; nia).
  f_equal. rewrite Ha. nia.
Qed.

Lemma bind_Ok_inv {A B : Type} (r : result A) (k : A -> result B) (b : B) :
  bind r k = Ok b -> exists a, r = Ok a /\ k a = Ok b.
Proof. destruct r as [a|e]; simpl; intro H; [eauto | discriminate]. Qed.

(** ** DDesign *)

(** C10.  With [previous_experiment] left at its default [None] the
    constructor fails, whatever the other arguments: reading
    [previous_experiment.experiment] raises [AttributeError] before the
    minimizer is called. *)
Theorem DDesign_without_previous_experiment_fails :
  forall (number_designs : nat)
         (lower_bounds_design upper_bounds_design initial_theta : vec)
         (statistical_model : StatisticalModel) (minimizer : Minimizer),
    DDesign.__init__ number_designs lower_bounds_design upper_bounds_design
      initial_theta statistical_model minimizer None
    = Raise AttributeError.
Proof. reflexivity. Qed.

(** The objective on a candidate of the right size: the negated determinant
    on the previous rows followed by the candidate's rows. *)
Lemma DDesign_objective_value
    (n : nat) (lb theta : vec) (sm : StatisticalModel) (prev : Experiment)
    (x : vec) :
  ncols (experiment prev) = length lb ->
  length x = (n * length lb)%nat ->
  DDesign.objective n lb theta sm (Some prev) x
  = (det <- calculate_determinant_fisher_information_matrix sm theta
              {| nrows := nrows (experiment prev) + n;
                 ncols := length lb;
                 buf := buf (experiment prev) ++ x |} ;;
     Ok (- det)).
Proof.
  intros Hc Hx. unfold DDesign.objective. simpl.
  rewrite (reshape2_ok _ _ _ Hx). simpl.
  rewrite concatenate0_ok by exact Hc. simpl. rewrite Hc. reflexivity.
Qed.

(** C2.  With a previous experiment of shape [m x d], where [d] is the number
    of design bounds, and a minimizer that returns a vector [v] of [n * d]
    entries, the constructed experiment is the array of shape [(m + n) x d]
    whose buffer is the previous buffer followed by [v]: its first [m] rows
    are the previous rows and row [m + i] holds [v[i*d] .. v[i*d + d - 1]].
    The function handed to the minimizer is, on every candidate of [n * d]
    entries, the negated determinant of the Fisher information matrix at
    [initial_theta] on the previous rows followed by the candidate's rows.
    This holds for every [n], also for [n = 0]. *)
Theorem DDesign_appends_reshaped_minimizer_result :
  forall (n : nat) (lb ub theta : vec) (sm : StatisticalModel)
         (mz : Minimizer) (prev : Experiment) (m d : nat) (v : vec),
    nrows (experiment prev) = m ->
    ncols (experiment prev) = d ->
    length (buf (experiment prev)) = (m * d)%nat ->
    length lb = d ->
    minimize mz (DDesign.objective n lb theta sm (Some prev))
      (DDesign.lower_bounds n lb) (DDesign.upper_bounds n ub) = Ok v ->
    length v = (n * d)%nat ->
    let design := {| nrows := m + n; ncols := d;
                     buf := buf (experiment prev) ++ v |} in
    DDesign.__init__ n lb ub theta sm mz (Some prev)
    = Ok (Build_Experiment design DDesign.name)
    /\ reshape2 v n d = Ok {| nrows := n; ncols := d; buf := v |}
    /\ (forall i j, (i < m)%nat -> (j < d)%nat ->
          entry design i j = entry (experiment prev) i j)
    /\ (forall i j, (i < n)%nat -> (j < d)%nat ->
          entry design (m + i) j
          = entry {| nrows := n; ncols := d; buf := v |} i j)
    /\ (forall x, length x = (n * d)%nat ->
          DDesign.objective n lb theta sm (Some prev) x
          = (det <- calculate_determinant_fisher_information_matrix sm theta
                      {| nrows := m + n; ncols := d;
                         buf := buf (experiment prev) ++ x |} ;;
             Ok (- det))).
Proof.
  intros n lb ub theta sm mz prev m d v Hm Hc Hwf Hlb Hmin Hv design.
  split; [| split; [| split; [| split]]].
  - unfold DDesign.__init__. simpl. rewrite Hmin. simpl.
    rewrite Hlb, (reshape2_ok _ _ _ Hv). simpl.
    rewrite concatenate0_ok by exact Hc. simpl. rewrite Hc, Hm. reflexivity.
  - apply reshape2_ok, Hv.
  - intros i j Hi Hj. unfold design, entry; simpl. rewrite Hc.
    apply app_nth1. rewrite Hwf. nia.
  - intros i j Hi Hj. unfold design.
    rewrite entry_app_lower by exact Hwf. reflexivity.
  - intros x Hx. rewrite <- Hm, <- Hlb.
    apply DDesign_objective_value; [rewrite Hc, Hlb; reflexivity |].
    rewrite Hlb. exact Hx.
Qed.

Lemma DDesign_appends_reshaped_minimizer_result_witness :
  DDesign.__init__ 2 [0; 5] [9; 9] [1] row_count_model lower_bound_minimizer
    (Some two_points)
  = Ok (Build_Experiment
          {| nrows := 4; ncols := 2; buf := [1; 2; 3; 4; 0; 5; 0; 5] |}
          DDesign.name).
Proof.
  apply (DDesign_appends_reshaped_minimizer_result
           2 [0; 5] [9; 9] [1] row_count_model lower_bound_minimizer
           two_points 2 2 [0; 5; 0; 5]); reflexivity.
Defined.

(** ** Flat vectors and matrices of points *)

(** C4.  With [d] design bounds on each side:
    - the bounds [DDesign] hands to the minimizer have [n * d] entries and
      are the design bounds repeated [n] times in sequence;
    - [DDesign]'s objective accepts exactly the flat vectors of [n * d]
      entries;
    - when [DDesign] succeeds, the minimizer was called with these bounds and
      returned a flat vector [v] of [n * d] entries, and row [m + i], column
      [j] of the design is [v[i * d + j]] (row-major);
    - when [PointPredictionDesign] succeeds, the minimizer was called with the
      design bounds themselves (one copy) and returned a vector [v] of
      [1 * d] entries, and the design is the [1 x d] array with
      [design[0, j] = v[j]]. *)
Theorem designs_are_optimized_as_flat_vectors :
  forall (n : nat) (lb ub : vec) (d : nat),
    length lb = d ->
    length ub = d ->
    (length (DDesign.lower_bounds n lb) = (n * d)%nat
     /\ length (DDesign.upper_bounds n ub) = (n * d)%nat
     /\ forall i j, (i < n)%nat -> (j < d)%nat ->
          nth (i * d + j) (DDesign.lower_bounds n lb) 0 = nth j lb 0
          /\ nth (i * d + j) (DDesign.upper_bounds n ub) 0 = nth j ub 0)
    /\ (forall theta sm prev x,
          length x <> (n * d)%nat ->
          DDesign.objective n lb theta sm (Some prev) x = Raise ValueError)
    /\ (forall theta sm mz prev E,
          length (buf (experiment prev))
          = (nrows (experiment prev) * ncols (experiment prev))%nat ->
          DDesign.__init__ n lb ub theta sm mz (Some prev) = Ok E ->
          exists v,
            minimize mz (DDesign.objective n lb theta sm (Some prev))
              (list_mul lb n) (list_mul ub n) = Ok v
            /\ length v = (n * d)%nat
            /\ nrows (experiment E) = (nrows (experiment prev) + n)%nat
            /\ ncols (experiment E) = d
            /\ forall i j, (i < n)%nat -> (j < d)%nat ->
                 entry (experiment E) (nrows (experiment prev) + i) j
                 = nth (i * d + j) v 0)
    /\ (forall mz pfu alpha E,
          PointPredictionDesign.__init__ lb ub mz pfu alpha = Ok E ->
          exists v,
            minimize mz (PointPredictionDesign.objective pfu alpha)
              (list_mul lb 1) (list_mul ub 1) = Ok v
            /\ length v = (1 * d)%nat
            /\ nrows (experiment E) = 1%nat
            /\ ncols (experiment E) = d
            /\ forall j, (j < d)%nat ->
                 entry (experiment E) 0 j = nth (0 * d + j) v 0).
Proof.
  intros n lb ub d Hlb Hub.
  split; [| split; [| split]].
  - unfold DDesign.lower_bounds, DDesign.upper_bounds.
    rewrite !list_mul_length, Hlb, Hub. repeat split; try reflexivity.
    + rewrite <- Hlb. apply nth_list_mul; [assumption | rewrite Hlb; assumption].
    + rewrite <- Hub. apply nth_list_mul; [assumption | rewrite Hub; assumption].
  - intros theta sm prev x Hx. unfold DDesign.objective. simpl.
    rewrite reshape2_wrong_size by (rewrite Hlb; exact Hx). reflexivity.
  - intros theta sm mz prev E Hwf Hinit.
    unfold DDesign.__init__ in Hinit. simpl in Hinit.
    apply bind_Ok_inv in Hinit. destruct Hinit as (v & Hv & Hinit).
    apply bind_Ok_inv in Hinit. destruct Hinit as (new & Hnew & Hinit).
    apply bind_Ok_inv in Hinit. destruct Hinit as (design & Hdes & Hinit).
    injection Hinit as <-.
    apply reshape2_inv in Hnew. destruct Hnew as [Hlen ->].
    apply concatenate0_inv in Hdes. simpl in Hdes. destruct Hdes as [Hc ->].
    rewrite Hlb in Hlen, Hc.
    exists v. simpl.
    split; [exact Hv |].
    split; [exact Hlen |].
    split; [reflexivity |].
    split; [exact Hc |].
    intros i j Hi Hj.
    replace {| nrows := nrows (experiment prev) + n;
               ncols := ncols (experiment prev);
               buf := buf (experiment prev) ++ v |}
      with {| nrows := nrows (experiment prev) + n;
              ncols := d;
              buf := buf (experiment prev) ++ v |}
      by (rewrite Hc; reflexivity).
    apply entry_app_lower. rewrite Hwf, Hc. reflexivity.
  - intros mz pfu alpha E Hinit.
    unfold PointPredictionDesign.__init__ in Hinit.
    apply bind_Ok_inv in Hinit. destruct Hinit as (v & Hv & Hinit).
    apply bind_Ok_inv in Hinit. destruct Hinit as (design & Hdes & Hinit).
    injection Hinit as <-.
    apply reshape2_inv in Hdes. destruct Hdes as [Hlen ->].
    rewrite Hlb in Hlen.
    exists v. simpl. rewrite !app_nil_r.
    split; [exact Hv |].
    split; [exact Hlen |].
    split; [reflexivity |].
    split; [exact Hlb |].
    intros j Hj. reflexivity.
Qed.

Lemma designs_are_optimized_as_flat_vectors_witness :
  (length (DDesign.lower_bounds 3 [0; 5]) = (3 * 2)%nat
   /\ length (DDesign.upper_bounds 3 [9; 9]) = (3 * 2)%nat
   /\ forall i j, (i < 3)%nat -> (j < 2)%nat ->
        nth (i * 2 + j) (DDesign.lower_bounds 3 [0; 5]) 0 = nth j [0; 5] 0
        /\ nth (i * 2 + j) (DDesign.upper_bounds 3 [9; 9]) 0 = nth j [9; 9] 0)
  /\ DDesign.objective 3 [0; 5] [1] row_count_model (Some two_points) [1; 2]
     = Raise ValueError.
Proof.
  destruct (designs_are_optimized_as_flat_vectors 3 [0; 5] [9; 9] 2
              eq_refl eq_refl) as (Hbounds & Hobj & _).
  split; [exact Hbounds |].
  apply Hobj. simpl. lia.
Defined.

(** ** PointPredictionDesign *)

Lemma np_sum_zip_with_minus (a b : vec) :
  length a = length b ->
  np_sum (zip_with Rminus a b) = predictive_spread a b.
Proof.
  unfold predictive_spread, np_sum.
  revert b; induction a as [|u a IH]; intros [|w b] H; simpl in *;
    try discriminate; [reflexivity |].
  f_equal. rewrite <- seq_shift, map_map. apply IH. lia.
Qed.

(** C5.  For every [alpha] and every parametric function with uncertainty:
    at a point [x] where the two quantile calls return arrays of the same
    length, the objective of [PointPredictionDesign] is the negated predictive
    spread at [x] (the quantile at [alpha] minus the quantile at [1 - alpha],
    summed over the output components; for a scalar output the negated
    difference itself); and when the constructor succeeds, its design is what
    the minimizer returned for exactly this objective. *)
Theorem point_prediction_objective_is_negated_spread :
  forall (lb ub : vec) (mz : Minimizer)
         (pfu : ParametricFunctionWithUncertainty) (alpha : R),
    (forall x qa qb,
       calculate_quantile pfu x alpha = Ok qa ->
       calculate_quantile pfu x (1 - alpha) = Ok qb ->
       length qa = length qb ->
       PointPredictionDesign.objective pfu alpha x
       = Ok (- predictive_spread qa qb))
    /\ (forall x a b,
          calculate_quantile pfu x alpha = Ok [a] ->
          calculate_quantile pfu x (1 - alpha) = Ok [b] ->
          PointPredictionDesign.objective pfu alpha x = Ok (- (a - b)))
    /\ (forall E,
          PointPredictionDesign.__init__ lb ub mz pfu alpha = Ok E ->
          minimize mz (PointPredictionDesign.objective pfu alpha) lb ub
          = Ok (buf (experiment E))).
Proof.
  intros lb ub mz pfu alpha.
  assert (Hvec : forall x qa qb,
            calculate_quantile pfu x alpha = Ok qa ->
            calculate_quantile pfu x (1 - alpha) = Ok qb ->
            length qa = length qb ->
            PointPredictionDesign.objective pfu alpha x
            = Ok (- predictive_spread qa qb)).
  { intros x qa qb Ha Hb Hlen. unfold PointPredictionDesign.objective.
    rewrite Ha, Hb. simpl.
    rewrite broadcast_same_length by exact Hlen. simpl.
    rewrite np_sum_zip_with_minus by exact Hlen. reflexivity. }
  split; [exact Hvec | split].
  - intros x a b Ha Hb. rewrite (Hvec x [a] [b] Ha Hb eq_refl).
    unfold predictive_spread. simpl. f_equal. ring.
  - intros E Hinit. unfold PointPredictionDesign.__init__ in Hinit.
    apply bind_Ok_inv in Hinit. destruct Hinit as (v & Hv & Hinit).
    apply bind_Ok_inv in Hinit. destruct Hinit as (design & Hdes & Hinit).
    injection Hinit as <-.
    apply reshape2_inv in Hdes. destruct Hdes as [_ ->]. exact Hv.
Qed.

(** C6.  A [PointPredictionDesign] that was constructed has shape [1 x d],
    with [d] the number of lower design bounds; and when the minimizer's
    vector lies within the bounds, the constructor succeeds and the single row
    of its design is that vector, so it lies within the bounds
    componentwise. *)
Theorem point_prediction_design_is_one_row_within_bounds :
  forall (lb ub : vec) (mz : Minimizer)
         (pfu : ParametricFunctionWithUncertainty) (alpha : R),
    (forall E,
       PointPredictionDesign.__init__ lb ub mz pfu alpha = Ok E ->
       nrows (experiment E) = 1%nat
       /\ ncols (experiment E) = length lb
       /\ length (buf (experiment E)) = (1 * length lb)%nat)
    /\ (forall v,
          minimize mz (PointPredictionDesign.objective pfu alpha) lb ub
          = Ok v ->
          within_bounds lb v ub ->
          exists E,
            PointPredictionDesign.__init__ lb ub mz pfu alpha = Ok E
            /\ nrows (experiment E) = 1%nat
            /\ ncols (experiment E) = length lb
            /\ getrow (experiment E) 0 = v
            /\ within_bounds lb (getrow (experiment E) 0) ub).
Proof.
  intros lb ub mz pfu alpha. split.
  - intros E Hinit. unfold PointPredictionDesign.__init__ in Hinit.
    apply bind_Ok_inv in Hinit. destruct Hinit as (v & Hv & Hinit).
    apply bind_Ok_inv in Hinit. destruct Hinit as (design & Hdes & Hinit).
    injection Hinit as <-.
    apply reshape2_inv in Hdes. destruct Hdes as [Hlen ->]. simpl. auto.
  - intros v Hv [Hlo Hup].
    assert (Hlen : length v = length lb)
      by (symmetry; eapply Forall2_length; exact Hlo).
    exists (Build_Experiment {| nrows := 1; ncols := length lb; buf := v |}
              PointPredictionDesign.name).
    assert (Hrow : getrow {| nrows := 1; ncols := length lb; buf := v |} 0 = v).
    { unfold getrow; simpl. rewrite <- Hlen. apply firstn_all. }
    split.
    { unfold PointPredictionDesign.__init__. rewrite Hv. simpl.
      rewrite reshape2_ok by (rewrite Hlen; lia). reflexivity. }
    simpl experiment. rewrite Hrow.
    repeat split; assumption.
Qed.

Lemma point_prediction_objective_is_negated_spread_witness :
  PointPredictionDesign.objective scaled_quantiles (9 / 10) [2; 3]
  = Ok (- predictive_spread [9 / 10 * 2; 9 / 10 * 3]
                            [(1 - 9 / 10) * 2; (1 - 9 / 10) * 3]).
Proof.
  destruct (point_prediction_objective_is_negated_spread
              [0; 0] [5; 5] lower_bound_minimizer scaled_quantiles (9 / 10))
    as (Hvec & _ & _).
  apply Hvec; reflexivity.
Defined.

Lemma point_prediction_design_is_one_row_within_bounds_witness :
  exists E,
    PointPredictionDesign.__init__ [0; 1] [5; 5] lower_bound_minimizer
      scaled_quantiles (9 / 10) = Ok E
    /\ nrows (experiment E) = 1%nat
    /\ ncols (experiment E) = 2%nat
    /\ getrow (experiment E) 0 = [0; 1]
    /\ within_bounds [0; 1] (getrow (experiment E) 0) [5; 5].
Proof.
  destruct (point_prediction_design_is_one_row_within_bounds
              [0; 1] [5; 5] lower_bound_minimizer scaled_quantiles (9 / 10))
    as (_ & Hin).
  apply (Hin [0; 1]); [reflexivity |].
  split; repeat constructor; lra.
Defined.

(** ** StdParameterEstimations *)

(** C8.  On the samples [0, 0, 0, 2, 2, 2] the metric returns the sample
    standard deviation [sqrt (6 / 5)]: exactly in real arithmetic, hence
    within [1e-5]. *)
Theorem std_of_test_samples :
  Rabs (StdParameterEstimations.calculate [0; 0; 0; 2; 2; 2] - sqrt (6 / 5))
  <= 1 / 100000.
Proof.
  assert (E : StdParameterEstimations.calculate [0; 0; 0; 2; 2; 2]
              = sqrt (6 / 5)).
  { unfold StdParameterEstimations.calculate, StdParameterEstimations.mean,
      np_sum. simpl. f_equal. field. }
  rewrite E, Rminus_diag, Rabs_R0. lra.
Qed.

(** ** The determinant of the Fisher information matrix *)

(** A row of the previous experiment is unchanged by appending rows. *)
Lemma getrow_app_upper (m n d k : nat) (a b : vec) :
  length a = (m * d)%nat -> (k < m)%nat ->
  getrow {| nrows := m + n; ncols := d; buf := a ++ b |} k
  = getrow {| nrows := m; ncols := d; buf := a |} k.
Proof.
  intros Ha Hk. unfold getrow; simpl.
  rewrite skipn_app.
  replace (k * d - length a)%nat with 0%nat by (rewrite Ha; nia).
  simpl skipn at 2.
  rewrite firstn_app.
  replace (d - length (skipn (k * d) a))%nat with 0%nat
    by (rewrite length_skipn, Ha; nia).
  simpl. apply app_nil_r.
Qed.

Lemma noise_scale_nonneg (sigma : R) : 0 <= 1 / sigma ^ 2.
Proof.
  destruct (Req_dec sigma 0) as [-> | Hs].
  - simpl. rewrite Rmult_0_l. unfold Rdiv. rewrite Rinv_0. lra.
  - apply Rlt_le, Rdiv_lt_0_compat; [lra | simpl; nra].
Qed.

Module FisherInformation.
Import ssreflect ssrfun ssrbool eqtype ssrnat seq choice.
Import fintype finfun bigop finset fingroup perm ssralg matrix.
Import GRing.Theory.
Import RealRing DesignMatrix.
Local Open Scope ring_scope.

Section GramDeterminant.
Variable K : comNzRingType.

(** The determinant of a product of a wide and a tall matrix, expanded by
    multilinearity over all choices of one column of [A] per row. *)
Lemma det_mulmx_rect (n p : nat) (A : 'M[K]_(p, n)) (B : 'M[K]_(n, p)) :
  \det (A *m B)
  = \sum_(f : {ffun 'I_p -> 'I_n})
      (\prod_i A i (f i)) * \det (pick_rows f B).
Proof.
rewrite /determinant.
under eq_bigr => s _.
  under eq_bigr => i _ do rewrite mxE.
  rewrite (bigA_distr_bigA (fun i k => A i k * B k (s i))) big_distrr /=.
  over.
rewrite exchange_big /=; apply: eq_bigr => f _.
rewrite big_distrr /=; apply: eq_bigr => s _.
rewrite big_split /= mulrCA; congr (_ * (_ * _)).
by apply: eq_bigr => i _; rewrite mxE.
Qed.

Lemma precomposeK (n p : nat) (s : 'S_p) :
  cancel (@precompose n p s) (@precompose n p s^-1).
Proof. by move=> f; apply/ffunP => i; rewrite !ffunE permKV. Qed.

Lemma precomposeVK (n p : nat) (s : 'S_p) :
  cancel (@precompose n p s^-1) (@precompose n p s).
Proof. by move=> f; apply/ffunP => i; rewrite !ffunE permK. Qed.

Lemma det_pick_rows_precompose (n p : nat) (s : 'S_p)
    (f : {ffun 'I_p -> 'I_n}) (B : 'M[K]_(n, p)) :
  \det (pick_rows (precompose s f) B) = (-1) ^+ s * \det (pick_rows f B).
Proof.
have -> : pick_rows (precompose s f) B = perm_mx s *m pick_rows f B.
  by rewrite -row_permE; apply/matrixP => i j; rewrite !mxE ffunE.
by rewrite det_mulmx det_perm.
Qed.

(** The determinant of a Gram matrix as a sum of squares over all choices of
    [p] rows: a choice with a repeated row contributes 0 and every set of [p]
    distinct rows is counted [p!] times. *)
Lemma det_gram_sum_squares (n p : nat) (J : 'M[K]_(n, p)) :
  \det (J^T *m J) *+ (p`!)
  = \sum_(f : {ffun 'I_p -> 'I_n}) \det (pick_rows f J) ^+ 2.
Proof.
have DE (s : 'S_p) :
    \det (J^T *m J)
    = \sum_(f : {ffun 'I_p -> 'I_n})
        ((-1) ^+ s * \prod_i J (f (s i)) i) * \det (pick_rows f J).
  rewrite det_mulmx_rect (reindex (precompose s)) /=.
    by exists (precompose s^-1) => f _;
      [apply: precomposeK | apply: precomposeVK].
  apply: eq_bigr => f _; rewrite det_pick_rows_precompose.
  rewrite mulrCA mulrA; congr (_ * _ * _).
  by apply: eq_bigr => i _; rewrite mxE ffunE.
rewrite -card_Sn -sumr_const.
under eq_bigr => s _ do rewrite (DE s).
rewrite exchange_big /=; apply: eq_bigr => f _.
rewrite -big_distrl /= expr2; congr (_ * _).
rewrite -[RHS]det_tr; apply: eq_bigr => s _; congr (_ * _).
by apply: eq_bigr => i _; rewrite !mxE.
Qed.

Lemma upper_rows_inj (n m p : nat) : injective (@upper_rows n m p).
Proof.
move=> f g /ffunP E; apply/ffunP => i.
by move: (E i); rewrite !ffunE; apply: lshift_inj.
Qed.

Lemma pick_upper_rows (n m p : nat) (f : {ffun 'I_p -> 'I_n})
    (J : 'M[K]_(n, p)) (L : 'M[K]_(m, p)) :
  pick_rows (upper_rows m f) (col_mx J L) = pick_rows f J.
Proof. by apply/matrixP => i j; rewrite [LHS]mxE [RHS]mxE ffunE col_mxEu. Qed.

End GramDeterminant.

(** *** Over the real numbers *)

Lemma sum_nonneg (I : finType) (P : pred I) (F : I -> R) :
  (forall i, P i -> Rle 0 (F i)) -> Rle 0 (\sum_(i | P i) F i).
Proof.
move=> F0; elim/big_ind: _ => //; first exact: Rle_refl.
by move=> x y x0 y0; apply: Rplus_le_le_0_compat.
Qed.

Lemma mulrn_INR (x : R) (k : nat) : x *+ k = Rmult x (INR k).
Proof.
elim: k => [|k IH]; first by rewrite mulr0n /= Rmult_0_r.
by rewrite mulrS IH S_INR Rmult_plus_distr_l Rmult_1_r Rplus_comm.
Qed.

Lemma sqr_nonneg (x : R) : Rle 0 (x ^+ 2).
Proof. rewrite expr2; exact: Rle_0_sqr. Qed.

Lemma exp_nonneg (c : R) (p : nat) : Rle 0 c -> Rle 0 (c ^+ p).
Proof.
move=> c0; elim: p => [|p IH]; first by rewrite expr0; exact: Rle_0_1.
by rewrite exprS; apply: Rmult_le_pos.
Qed.

(** Stacking rows under a matrix cannot decrease the determinant of its Gram
    matrix: the choices of rows of the stacked matrix contain those of the
    upper part, and every choice contributes a square. *)
Lemma det_gram_monotone (n m p : nat)
    (J : 'M[R]_(n, p)) (L : 'M[R]_(m, p)) :
  Rle (\det (J^T *m J)) (\det ((col_mx J L)^T *m col_mx J L)).
Proof.
have fact_pos : Rlt 0 (INR (p`!)).
  by apply: lt_0_INR; apply/ltP; exact: fact_gt0.
apply: (Rmult_le_reg_r (INR (p`!))) => //.
rewrite -!mulrn_INR !det_gram_sum_squares.
pose U := upper_rows m @: [set: {ffun 'I_p -> 'I_n}].
rewrite [X in Rle _ X](bigID (mem U)) /=.
rewrite (big_imset _ (in2W (@upper_rows_inj n m p))) /=.
have -> : \sum_(f in [set: {ffun 'I_p -> 'I_n}])
            \det (pick_rows (upper_rows m f) (col_mx J L)) ^+ 2
          = \sum_(f : {ffun 'I_p -> 'I_n}) \det (pick_rows f J) ^+ 2.
  apply: eq_big => [f | f _]; first by rewrite inE.
  by rewrite pick_upper_rows.
rewrite -[X in Rle X _]Rplus_0_r; apply: Rplus_le_compat_l.
by apply: sum_nonneg => g _; exact: sqr_nonneg.
Qed.

Section Fisher.
Variable partial_derivative : vec -> vec -> nat -> R.
Variables (sigma : R) (theta : vec).

Local Notation jacobian := (DesignMatrix.jacobian partial_derivative theta).

Lemma fisher_gram (X : ndarray2) :
  GaussianNoiseModel.calculate_fisher_information_matrix
    partial_derivative sigma theta X
  = Rdiv 1 (pow sigma 2) *: ((jacobian X)^T *m jacobian X).
Proof.
rewrite /GaussianNoiseModel.calculate_fisher_information_matrix.
congr (_ *: _); apply/matrixP => i j.
rewrite summxE [RHS]mxE; apply: eq_bigr => k _.
by rewrite !mxE big_ord1 !mxE.
Qed.

Lemma det_fisher (X : ndarray2) :
  GaussianNoiseModel.calculate_determinant_fisher_information_matrix
    partial_derivative sigma theta X
  = Rdiv 1 (pow sigma 2) ^+ length theta
    * \det ((jacobian X)^T *m jacobian X).
Proof.
rewrite /GaussianNoiseModel.calculate_determinant_fisher_information_matrix.
by rewrite fisher_gram detZ.
Qed.

Lemma jacobian_append (m n d : nat) (a b : vec) :
  length a = Nat.mul m d ->
  jacobian {| nrows := Nat.add m n; ncols := d; buf := a ++ b |}
  = col_mx
      (jacobian {| nrows := m; ncols := d; buf := a |})
      (\matrix_(k < n, i < length theta)
         partial_derivative theta
           (getrow {| nrows := Nat.add m n; ncols := d; buf := a ++ b |}
                   (Nat.add m k)) i).
Proof.
move=> Ha; apply/matrixP => i j; rewrite [LHS]mxE.
case: (split_ordP i) => k ->.
  rewrite col_mxEu mxE /= getrow_app_upper //.
  by apply/ltP; exact: ltn_ord.
by rewrite col_mxEd mxE.
Qed.

(** The determinant of the Fisher information matrix does not decrease when
    rows are appended to a design. *)
Lemma det_fisher_append (m n d : nat) (a b : vec) :
  length a = Nat.mul m d ->
  Rle (GaussianNoiseModel.calculate_determinant_fisher_information_matrix
         partial_derivative sigma theta
         {| nrows := m; ncols := d; buf := a |})
      (GaussianNoiseModel.calculate_determinant_fisher_information_matrix
         partial_derivative sigma theta
         {| nrows := Nat.add m n; ncols := d; buf := a ++ b |}).
Proof.
move=> Ha; rewrite !det_fisher (@jacobian_append m n d a b Ha).
apply: Rmult_le_compat_l; last exact: det_gram_monotone.
by apply: exp_nonneg; exact: noise_scale_nonneg.
Qed.

End Fisher.

End FisherInformation.

(** C3.  With the Fisher information matrix of the spec,
    [(1/sigma^2) * sum over design points of (Jacobian_row^T * Jacobian_row)],
    at a fixed [theta]: the determinant on an array with rows appended is no
    smaller than the determinant on the array itself, whatever the appended
    rows; in particular the design that [DDesign] constructs has a
    determinant no smaller than that of the previous experiment alone.  In
    exact arithmetic this needs no conditioning assumption. *)
Theorem DDesign_determinant_not_smaller :
  forall (partial_derivative : vec -> vec -> nat -> R) (sigma : R)
         (theta : vec),
    (forall A B X : ndarray2,
       length (buf A) = (nrows A * ncols A)%nat ->
       concatenate0 A B = Ok X ->
       GaussianNoiseModel.calculate_determinant_fisher_information_matrix
         partial_derivative sigma theta A
       <= GaussianNoiseModel.calculate_determinant_fisher_information_matrix
            partial_derivative sigma theta X)
    /\ (forall (n : nat) (lb ub : vec) (mz : Minimizer)
               (prev E : Experiment),
          length (buf (experiment prev))
          = (nrows (experiment prev) * ncols (experiment prev))%nat ->
          DDesign.__init__ n lb ub theta
            (GaussianNoiseModel.model partial_derivative sigma) mz (Some prev)
          = Ok E ->
          GaussianNoiseModel.calculate_determinant_fisher_information_matrix
            partial_derivative sigma theta (experiment prev)
          <= GaussianNoiseModel.calculate_determinant_fisher_information_matrix
               partial_derivative sigma theta (experiment E)).
Proof.
  intros pd sigma theta.
  assert (Happ : forall A B X : ndarray2,
            length (buf A) = (nrows A * ncols A)%nat ->
            concatenate0 A B = Ok X ->
            GaussianNoiseModel.calculate_determinant_fisher_information_matrix
              pd sigma theta A
            <= GaussianNoiseModel.calculate_determinant_fisher_information_matrix
                 pd sigma theta X).
  { intros [m d a] [n d' b] X Hwf HX. simpl in Hwf.
    apply concatenate0_inv in HX. destruct HX as [_ ->]. simpl.
    apply FisherInformation.det_fisher_append. exact Hwf. }
  split; [exact Happ |].
  intros n lb ub mz prev E Hwf Hinit.
  unfold DDesign.__init__ in Hinit. simpl in Hinit.
  apply bind_Ok_inv in Hinit. destruct Hinit as (v & _ & Hinit).
  apply bind_Ok_inv in Hinit. destruct Hinit as (new & _ & Hinit).
  apply bind_Ok_inv in Hinit. destruct Hinit as (design & Hdes & Hinit).
  injection Hinit as <-. simpl.
  exact (Happ (experiment prev) new design Hwf Hdes).
Qed.

Lemma DDesign_determinant_not_smaller_witness :
  GaussianNoiseModel.calculate_determinant_fisher_information_matrix
    proportional_derivative 1 [1] {| nrows := 1; ncols := 1; buf := [2] |}
  <= GaussianNoiseModel.calculate_determinant_fisher_information_matrix
       proportional_derivative 1 [1]
       {| nrows := 2; ncols := 1; buf := [2; 3] |}.
Proof.
  destruct (DDesign_determinant_not_smaller proportional_derivative 1 [1])
    as [_ Hdesign].
  apply (Hdesign 1%nat [3] [5] lower_bound_minimizer one_point
           (Build_Experiment {| nrows := 2; ncols := 1; buf := [2; 3] |}
              DDesign.name));
    reflexivity.
Defined.

Module FisherExamples.
Import ssreflect ssrfun ssrbool eqtype ssrnat seq choice.
Import fintype finfun bigop ssralg matrix.
Import GRing.Theory.
Import RealRing.

(** With one parameter the matrix is the sum of the squared derivatives: one
    design point [2] gives 4, the points [2] and [3] give 13. *)
Example det_fisher_one_point :
  GaussianNoiseModel.calculate_determinant_fisher_information_matrix
    proportional_derivative 1 [1] {| nrows := 1; ncols := 1; buf := [2] |}
  = 4.
Proof.
rewrite /GaussianNoiseModel.calculate_determinant_fisher_information_matrix.
rewrite det_mx11 /GaussianNoiseModel.calculate_fisher_information_matrix.
rewrite mxE summxE big_ord1 mxE big_ord1 !mxE.
rewrite /proportional_derivative /getrow /=.
rewrite /GRing.mul /=; lra.
Qed.

Example det_fisher_two_points :
  GaussianNoiseModel.calculate_determinant_fisher_information_matrix
    proportional_derivative 1 [1]
    {| nrows := 2; ncols := 1; buf := [2; 3] |}
  = 13.
Proof.
rewrite /GaussianNoiseModel.calculate_determinant_fisher_information_matrix.
rewrite det_mx11 /GaussianNoiseModel.calculate_fisher_information_matrix.
rewrite mxE summxE big_ord_recl big_ord1 !mxE !big_ord1 !mxE.
rewrite /proportional_derivative /getrow /=.
rewrite /GRing.mul /GRing.add /=; lra.
Qed.

End FisherExamples.

(** * Further properties of the embedded code *)

(** ** Aging_Model: errors and shapes *)

(** X1.  [Calendar_Aging] returns an array exactly when [theta] has at least
    three and [x] at least two components, and the array then has one entry
    per point of the time grid; in every other case it raises [IndexError]. *)
Theorem Calendar_Aging_outcome :
  forall (self : Aging_Model.obj) (theta x : vec),
    match Aging_Model.Calendar_Aging self theta x with
    | Ok f => (3 <= length theta)%nat /\ (2 <= length x)%nat
              /\ length f = length (Aging_Model.t self)
    | Raise e => e = IndexError
                 /\ ((length theta < 3)%nat \/ (length x < 2)%nat)
    end.
Proof.
  intros self theta x.
  destruct theta as [|a [|b [|c theta']]];
    try (cbn; split; [reflexivity | left; simpl; lia]).
  destruct x as [|x0 [|x1 x']];
    try (cbn; split; [reflexivity | right; simpl; lia]).
  rewrite Calendar_Aging_value. simpl.
  repeat split; try lia. apply length_map.
Qed.

(** X2.  For an index other than 0, 1 and 2, [partial_derivative_Calendar_Aging]
    returns [None] without reading [theta] or [x]: no exception, whatever
    their lengths. *)
Theorem partial_derivative_other_index_is_None :
  forall (self : Aging_Model.obj) (theta x : vec) (index : Z),
    index <> 0%Z -> index <> 1%Z -> index <> 2%Z ->
    Aging_Model.partial_derivative_Calendar_Aging self theta x index = Ok None.
Proof.
  intros self theta x index H0 H1 H2.
  unfold Aging_Model.partial_derivative_Calendar_Aging.
  destruct (Z.eqb_spec index 0); [contradiction |].
  destruct (Z.eqb_spec index 1); [contradiction |].
  destruct (Z.eqb_spec index 2); [contradiction |].
  reflexivity.
Qed.

Lemma partial_derivative_other_index_is_None_witness :
  AgingModel.partial_derivative [] [] (-1) = Ok None.
Proof.
  apply (partial_derivative_other_index_is_None
           AgingModel._aging_model [] [] (-1)%Z); lia.
Defined.

(** X3.  For an index in {0, 1, 2}, [partial_derivative_Calendar_Aging] fails
    exactly when [Calendar_Aging] fails, with the same exception, and
    otherwise returns an array of the same length as the model's value. *)
Theorem partial_derivative_follows_Calendar_Aging :
  forall (self : Aging_Model.obj) (theta x : vec) (index : Z),
    (0 <= index <= 2)%Z ->
    match Aging_Model.Calendar_Aging self theta x with
    | Ok f =>
        exists d,
          Aging_Model.partial_derivative_Calendar_Aging self theta x index
          = Ok (Some d)
          /\ length d = length f
    | Raise e =>
        Aging_Model.partial_derivative_Calendar_Aging self theta x index
        = Raise e
    end.
Proof.
  intros self theta x index Hi.
  assert (Hcases : index = 0%Z \/ index = 1%Z \/ index = 2%Z) by lia.
  pose proof (Calendar_Aging_outcome self theta x) as Hout.
  unfold Aging_Model.partial_derivative_Calendar_Aging.
  destruct (Aging_Model.Calendar_Aging self theta x) as [f|e] eqn:Hf.
  - destruct Hout as (Ht & Hx & Hlen).
    destruct theta as [|a [|b [|c theta']]]; simpl in Ht; try lia.
    destruct x as [|x0 [|x1 x']]; simpl in Hx; try lia.
    destruct Hcases as [-> | [-> | ->]]; cbn.
    + eexists; split; [reflexivity | apply length_map].
    + eexists; split; [reflexivity | apply length_map].
    + rewrite broadcast_same_length by (rewrite !length_map; exact Hlen).
      cbn. eexists; split; [reflexivity |].
      rewrite zip_with_length by (rewrite !length_map; exact Hlen).
      apply length_map.
  - destruct Hcases as [-> | [-> | ->]]; reflexivity.
Qed.

Lemma partial_derivative_follows_Calendar_Aging_witness :
  match AgingModel.__call__ [1; 2] [5 / 10; 300] with
  | Ok f =>
      exists d,
        AgingModel.partial_derivative [1; 2] [5 / 10; 300] 2 = Ok (Some d)
        /\ length d = length f
  | Raise e => AgingModel.partial_derivative [1; 2] [5 / 10; 300] 2 = Raise e
  end.
Proof.
  apply (partial_derivative_follows_Calendar_Aging
           AgingModel._aging_model [1; 2] [5 / 10; 300] 2%Z). lia.
Defined.

(** ** Aging_Model: values *)

Section AgingModelValues.
Variable self : Aging_Model.obj.

(** Component [k] of the model's value. *)
Lemma Calendar_Aging_component
    (th0 th1 th2 x0 x1 : R) (theta' x' f : vec) (k : nat) :
  Aging_Model.Calendar_Aging self
    (th0 :: th1 :: th2 :: theta') (x0 :: x1 :: x') = Ok f ->
  (k < length (Aging_Model.t self))%nat ->
  nth k f 0
  = (1 - Aging_Model.EOL_C self)
    / Rpower (Aging_Model.t_end self * (24 * 3600)) th2
    * Rpower (x0 / Aging_Model.SoCref self) (1 / th0)
    * exp (- th1 * ((1 / x1) - (1 / Aging_Model.Tref self)))
    * Rpower (nth k (Aging_Model.t self) 0 * (24 * 3600)) th2.
Proof.
  rewrite Calendar_Aging_value. intros [= <-] Hk.
  rewrite nth_map_lt by exact Hk. reflexivity.
Qed.

Lemma Rpower_pos (b e : R) : 0 < Rpower b e.
Proof. unfold Rpower. apply exp_pos. Qed.


End AgingModelValues.



(** X5.  At the reference state of charge and the reference temperature the
    loss at grid time [t_k] is [(1 - EOL_C) * (t_k / t_end) ** theta[2]],
    whatever [theta[0]] and [theta[1]] are; at [t_k = t_end] it is
    [1 - EOL_C]. *)
Theorem Calendar_Aging_at_reference :
  forall (self : Aging_Model.obj) (theta f : vec) (th2 : R) (k : nat),
    0 < Aging_Model.SoCref self ->
    Aging_Model.Tref self <> 0 ->
    0 < Aging_Model.t_end self ->
    getitem theta 0 <> Ok 0 ->
    getitem theta 2 = Ok th2 ->
    (k < length (Aging_Model.t self))%nat ->
    0 < nth k (Aging_Model.t self) 0 ->
    Aging_Model.Calendar_Aging self theta
      [Aging_Model.SoCref self; Aging_Model.Tref self] = Ok f ->
    nth k f 0
    = (1 - Aging_Model.EOL_C self)
      * Rpower (nth k (Aging_Model.t self) 0 / Aging_Model.t_end self) th2
    /\ (nth k (Aging_Model.t self) 0 = Aging_Model.t_end self ->
        nth k f 0 = 1 - Aging_Model.EOL_C self).
Proof.
  intros self theta f th2 k HS HT Hte _ Hth2 Hk Htk Hf.
  pose proof (Calendar_Aging_outcome self theta
                [Aging_Model.SoCref self; Aging_Model.Tref self]) as Hout.
  rewrite Hf in Hout. destruct Hout as (Ht & _ & _).
  destruct theta as [|a [|b [|c theta']]]; simpl in Ht; try lia.
  injection Hth2 as ->.
  rewrite (Calendar_Aging_component self _ _ _ _ _ _ _ _ _ Hf Hk).
  set (tk := nth k (Aging_Model.t self) 0) in *.
  assert (E1 : Rpower (Aging_Model.SoCref self / Aging_Model.SoCref self)
                 (1 / a) = 1).
  { unfold Rdiv at 1. rewrite Rinv_r by lra.
    unfold Rpower. rewrite ln_1, Rmult_0_r. apply exp_0. }
  assert (E2 : exp (- b * (1 / Aging_Model.Tref self
                           - 1 / Aging_Model.Tref self)) = 1).
  { rewrite Rminus_diag, Rmult_0_r. apply exp_0. }
  assert (E3 : Rpower (tk * (24 * 3600)) th2
               / Rpower (Aging_Model.t_end self * (24 * 3600)) th2
               = Rpower (tk / Aging_Model.t_end self) th2).
  { assert (Hc : 0 < 24 * 3600) by lra.
    assert (L1 : ln (tk * (24 * 3600)) = ln tk + ln (24 * 3600))
      by (apply ln_mult; assumption).
    assert (L2 : ln (Aging_Model.t_end self * (24 * 3600))
                 = ln (Aging_Model.t_end self) + ln (24 * 3600))
      by (apply ln_mult; assumption).
    assert (L3 : ln (tk / Aging_Model.t_end self)
                 = ln tk - ln (Aging_Model.t_end self)).
    { unfold Rdiv. rewrite ln_mult, ln_Rinv;
        [ring | assumption | assumption | apply Rinv_0_lt_compat; assumption]. }
    unfold Rpower, Rdiv. rewrite <- exp_Ropp, <- exp_plus. f_equal.
    fold (tk / Aging_Model.t_end self). rewrite L1, L2, L3. ring. }
  assert (Hmain : (1 - Aging_Model.EOL_C self)
      / Rpower (Aging_Model.t_end self * (24 * 3600)) th2
      * Rpower (Aging_Model.SoCref self / Aging_Model.SoCref self) (1 / a)
      * exp (- b * (1 / Aging_Model.Tref self - 1 / Aging_Model.Tref self))
      * Rpower (tk * (24 * 3600)) th2
      = (1 - Aging_Model.EOL_C self)
        * Rpower (tk / Aging_Model.t_end self) th2).
  { rewrite E1, E2, <- E3. field.
    apply Rgt_not_eq, Rpower_pos. }
  split; [exact Hmain |].
  intro Heq. rewrite Hmain, Heq.
  unfold Rdiv. rewrite Rinv_r by lra.
  unfold Rpower. rewrite ln_1, Rmult_0_r, exp_0. ring.
Qed.

Lemma Calendar_Aging_at_reference_witness :
  exists f,
    Aging_Model.Calendar_Aging
      (Aging_Model.Build (5 / 10) (29615 / 100) (9 / 10) 520 [260; 520])
      [18 / 10; 402; 13 / 100] [5 / 10; 29615 / 100] = Ok f
    /\ nth 1 f 0 = 1 - 9 / 10.
Proof.
  eexists. split; [reflexivity |].
  apply (Calendar_Aging_at_reference
           (Aging_Model.Build (5 / 10) (29615 / 100) (9 / 10) 520 [260; 520])
           [18 / 10; 402; 13 / 100] _ (13 / 100) 1);
    try reflexivity; try (simpl; lra); try (simpl; lia).
  simpl. intro H. injection H. lra.
Defined.



(** X7.  With [theta[0] > 0] a larger (positive) state of charge gives a
    strictly larger loss at every grid time. *)
Theorem Calendar_Aging_increases_with_SoC :
  forall (self : Aging_Model.obj) (theta f f' : vec) (th0 x0 x0' x1 : R)
         (x' x'' : vec) (k : nat),
    Aging_Model.EOL_C self < 1 ->
    0 < Aging_Model.SoCref self ->
    0 < Aging_Model.Tref self ->
    0 < Aging_Model.t_end self ->
    0 < nth k (Aging_Model.t self) 0 ->
    getitem theta 0 = Ok th0 -> 0 < th0 ->
    0 < x1 ->
    0 < x0 < x0' ->
    (k < length (Aging_Model.t self))%nat ->
    Aging_Model.Calendar_Aging self theta (x0 :: x1 :: x') = Ok f ->
    Aging_Model.Calendar_Aging self theta (x0' :: x1 :: x'') = Ok f' ->
    nth k f 0 < nth k f' 0.
Proof.
  intros self theta f f' th0 x0 x0' x1 x' x'' k
         HE HS _ _ _ Hth0 Hpos _ Hx Hk Hf Hf'.
  pose proof (Calendar_Aging_outcome self theta (x0 :: x1 :: x')) as Hout.
  rewrite Hf in Hout. destruct Hout as (Hlt & _ & _).
  destruct theta as [|a [|b [|c theta']]]; simpl in Hlt; try lia.
  injection Hth0 as ->.
  rewrite (Calendar_Aging_component self _ _ _ _ _ _ _ _ _ Hf Hk).
  rewrite (Calendar_Aging_component self _ _ _ _ _ _ _ _ _ Hf' Hk).
  apply Rmult_lt_compat_r; [apply Rpower_pos |].
  apply Rmult_lt_compat_r; [apply exp_pos |].
  apply Rmult_lt_compat_l;
    [apply Rdiv_lt_0_compat; [lra | apply Rpower_pos] |].
  apply Rlt_Rpower_l.
  - unfold Rdiv. rewrite Rmult_1_l. apply Rinv_0_lt_compat. exact Hpos.
  - split.
    + apply Rdiv_lt_0_compat; lra.
    + unfold Rdiv. apply Rmult_lt_compat_r;
        [apply Rinv_0_lt_compat; exact HS | lra].
Qed.

Lemma Calendar_Aging_increases_with_SoC_witness :
  exists f f',
    AgingModel.__call__ [18 / 10; 402; 13 / 100] [2 / 10; 300] = Ok f
    /\ AgingModel.__call__ [18 / 10; 402; 13 / 100] [9 / 10; 300] = Ok f'
    /\ nth 0 f 0 < nth 0 f' 0.
Proof.
  eexists. eexists. split; [reflexivity | split; [reflexivity |]].
  apply (Calendar_Aging_increases_with_SoC AgingModel._aging_model
           [18 / 10; 402; 13 / 100] _ _ (18 / 10) (2 / 10) (9 / 10) 300
           [] [] 0);
    try reflexivity; try (simpl; lra); simpl; lia.
Defined.



(** ** Aging_Model: sensitivities *)





(** ** AgingModel.plot *)






(** ** DDesign: outcomes *)

(** X12.  The outcome of [DDesign.__init__] with a previous experiment: it
    succeeds exactly when the minimizer returns a vector of [n * d] entries
    and the previous experiment has [d] columns ([d] the number of lower
    bounds), and the design is then the previous buffer followed by that
    vector; an exception of the minimizer is passed on; a vector of another
    size or a previous experiment with another number of columns raises
    [ValueError]. *)
Theorem DDesign_outcome :
  forall (n : nat) (lb ub theta : vec) (sm : StatisticalModel)
         (mz : Minimizer) (prev : Experiment),
    match DDesign.__init__ n lb ub theta sm mz (Some prev) with
    | Ok E =>
        exists v,
          minimize mz (DDesign.objective n lb theta sm (Some prev))
            (DDesign.lower_bounds n lb) (DDesign.upper_bounds n ub) = Ok v
          /\ length v = (n * length lb)%nat
          /\ ncols (experiment prev) = length lb
          /\ E = Build_Experiment
                   {| nrows := nrows (experiment prev) + n;
                      ncols := ncols (experiment prev);
                      buf := buf (experiment prev) ++ v |}
                   DDesign.name
    | Raise e =>
        minimize mz (DDesign.objective n lb theta sm (Some prev))
          (DDesign.lower_bounds n lb) (DDesign.upper_bounds n ub) = Raise e
        \/ exists v,
             minimize mz (DDesign.objective n lb theta sm (Some prev))
               (DDesign.lower_bounds n lb) (DDesign.upper_bounds n ub) = Ok v
             /\ e = ValueError
             /\ (length v <> (n * length lb)%nat
                 \/ ncols (experiment prev) <> length lb)
    end.
Proof.
  intros n lb ub theta sm mz prev.
  unfold DDesign.__init__. simpl.
  destruct (minimize mz _ _ _) as [v|e] eqn:Hv; simpl; [| left; reflexivity].
  unfold reshape2.
  destruct (Nat.eqb_spec (length v) (n * length lb)) as [Hlen|Hlen]; simpl.
  - unfold concatenate0. simpl.
    destruct (Nat.eqb_spec (ncols (experiment prev)) (length lb)) as [Hc|Hc];
      simpl.
    + exists v. auto.
    + right. exists v. auto.
  - right. exists v. auto.
Qed.

(** X13.  When the previous experiment does not have as many columns as there
    are lower bounds, the objective raises [ValueError] on every candidate
    vector, and the constructor never succeeds. *)
Theorem DDesign_column_mismatch :
  forall (n : nat) (lb ub theta : vec) (sm : StatisticalModel)
         (mz : Minimizer) (prev : Experiment),
    ncols (experiment prev) <> length lb ->
    (forall x, DDesign.objective n lb theta sm (Some prev) x
               = Raise ValueError)
    /\ forall E, DDesign.__init__ n lb ub theta sm mz (Some prev) <> Ok E.
Proof.
  intros n lb ub theta sm mz prev Hc. split.
  - intro x. unfold DDesign.objective. simpl. unfold reshape2.
    destruct (Nat.eqb (length x) (n * length lb)); simpl; [| reflexivity].
    unfold concatenate0. simpl.
    destruct (Nat.eqb_spec (ncols (experiment prev)) (length lb));
      [contradiction | reflexivity].
  - intros E HE.
    pose proof (DDesign_outcome n lb ub theta sm mz prev) as Hout.
    rewrite HE in Hout. destruct Hout as (v & _ & _ & Hc' & _).
    contradiction.
Qed.

Lemma DDesign_column_mismatch_witness :
  DDesign.objective 1 [0] [1] row_count_model (Some two_points) [0]
  = Raise ValueError.
Proof.
  apply (DDesign_column_mismatch 1 [0] [1] [1] row_count_model
           lower_bound_minimizer two_points).
  simpl. lia.
Defined.

(** X14.  The constructed array is well formed when the previous one is: its
    buffer has [nrows * ncols] entries. *)
Theorem DDesign_keeps_shape_invariant :
  forall (n : nat) (lb ub theta : vec) (sm : StatisticalModel)
         (mz : Minimizer) (prev E : Experiment),
    length (buf (experiment prev))
    = (nrows (experiment prev) * ncols (experiment prev))%nat ->
    DDesign.__init__ n lb ub theta sm mz (Some prev) = Ok E ->
    length (buf (experiment E))
    = (nrows (experiment E) * ncols (experiment E))%nat.
Proof.
  intros n lb ub theta sm mz prev E Hwf HE.
  pose proof (DDesign_outcome n lb ub theta sm mz prev) as Hout.
  rewrite HE in Hout. destruct Hout as (v & _ & Hlen & Hc & ->).
  simpl. rewrite length_app, Hwf, Hlen, Hc. lia.
Qed.

Lemma DDesign_keeps_shape_invariant_witness :
  length [1; 2; 3; 4; 0; 5; 0; 5] = (4 * 2)%nat.
Proof.
  apply (DDesign_keeps_shape_invariant 2 [0; 5] [9; 9] [1] row_count_model
           lower_bound_minimizer two_points
           (Build_Experiment
              {| nrows := 4; ncols := 2; buf := [1; 2; 3; 4; 0; 5; 0; 5] |}
              DDesign.name)); reflexivity.
Defined.

(** ** DDesign: the appended rows *)

Lemma getrow_app_lower (m n d i : nat) (a b : vec) :
  length a = (m * d)%nat ->
  getrow {| nrows := m + n; ncols := d; buf := a ++ b |} (m + i)
  = firstn d (skipn (i * d) b).
Proof.
  intro Ha. unfold getrow; simpl.
  rewrite skipn_app.
  rewrite skipn_all2 by (rewrite Ha; nia).
  replace ((m + i) * d - length a)%nat with (i * d)%nat by (rewrite Ha; nia).
  reflexivity.
Qed.

(** A vector that is related entry by entry to [n] copies of [l] is related,
    block by block, to [l]. *)
Lemma Forall2_list_mul_block (P : R -> R -> Prop) (l : vec) :
  forall (n : nat) (v : vec) (i : nat),
    Forall2 P (list_mul l n) v -> (i < n)%nat ->
    Forall2 P l (firstn (length l) (skipn (i * length l) v)).
Proof.
  induction n as [|n IH]; intros v i H Hi; [lia |].
  simpl in H. apply Forall2_app_inv_l in H.
  destruct H as (v1 & v2 & H1 & H2 & ->).
  pose proof (Forall2_length H1) as Hlen.
  destruct i as [|i].
  - simpl. rewrite firstn_app, Hlen, firstn_all, Nat.sub_diag. simpl.
    rewrite app_nil_r. exact H1.
  - rewrite skipn_app.
    rewrite skipn_all2 by (simpl; lia).
    replace (S i * length l - length v1)%nat with (i * length l)%nat
      by (simpl; lia).
    simpl. apply IH; [exact H2 | lia].
Qed.

(** X15.  When the minimizer's vector lies within the bounds it was given,
    every appended row of the design lies within the design bounds
    componentwise. *)
Theorem DDesign_new_rows_within_bounds :
  forall (n : nat) (lb ub theta : vec) (sm : StatisticalModel)
         (mz : Minimizer) (prev E : Experiment) (v : vec) (i : nat),
    length (buf (experiment prev))
    = (nrows (experiment prev) * ncols (experiment prev))%nat ->
    length ub = length lb ->
    minimize mz (DDesign.objective n lb theta sm (Some prev))
      (DDesign.lower_bounds n lb) (DDesign.upper_bounds n ub) = Ok v ->
    within_bounds (DDesign.lower_bounds n lb) v (DDesign.upper_bounds n ub) ->
    DDesign.__init__ n lb ub theta sm mz (Some prev) = Ok E ->
    (i < n)%nat ->
    within_bounds lb (getrow (experiment E) (nrows (experiment prev) + i)) ub.
Proof.
  intros n lb ub theta sm mz prev E v i Hwf Hub Hv [Hlo Hup] HE Hi.
  pose proof (DDesign_outcome n lb ub theta sm mz prev) as Hout.
  rewrite HE in Hout. destruct Hout as (v' & Hv' & Hlen & Hc & ->).
  rewrite Hv in Hv'. injection Hv' as <-.
  simpl experiment.
  rewrite getrow_app_lower by exact Hwf.
  rewrite Hc. split.
  - apply Forall2_list_mul_block with (n := n); assumption.
  - apply Forall2_flip. rewrite <- Hub.
    apply Forall2_list_mul_block with (n := n); [| exact Hi].
    apply Forall2_flip. exact Hup.
Qed.

Lemma DDesign_new_rows_within_bounds_witness :
  within_bounds [0; 5]
    (getrow {| nrows := 4; ncols := 2; buf := [1; 2; 3; 4; 0; 5; 0; 5] |}
            (2 + 1))
    [9; 9].
Proof.
  apply (DDesign_new_rows_within_bounds 2 [0; 5] [9; 9] [1] row_count_model
           lower_bound_minimizer two_points
           (Build_Experiment
              {| nrows := 4; ncols := 2; buf := [1; 2; 3; 4; 0; 5; 0; 5] |}
              DDesign.name)
           [0; 5; 0; 5] 1);
    try reflexivity; try lia.
  split; repeat constructor; lra.
Defined.

(** ** DDesign: composition and the empty batch *)

(** X16.  Designs built in sequence accumulate: a [DDesign] of [n2] points on
    top of a [DDesign] of [n1] points is the previous experiment followed by
    both minimizer vectors, the array one gets by reshaping their
    concatenation into [(n1 + n2) x d] and appending it once. *)
Theorem DDesign_twice_accumulates :
  forall (n1 n2 : nat) (lb ub theta1 theta2 : vec)
         (sm1 sm2 : StatisticalModel) (mz1 mz2 : Minimizer)
         (prev E1 E2 : Experiment),
    DDesign.__init__ n1 lb ub theta1 sm1 mz1 (Some prev) = Ok E1 ->
    DDesign.__init__ n2 lb ub theta2 sm2 mz2 (Some E1) = Ok E2 ->
    exists v1 v2 new,
      minimize mz1 (DDesign.objective n1 lb theta1 sm1 (Some prev))
        (DDesign.lower_bounds n1 lb) (DDesign.upper_bounds n1 ub) = Ok v1
      /\ minimize mz2 (DDesign.objective n2 lb theta2 sm2 (Some E1))
           (DDesign.lower_bounds n2 lb) (DDesign.upper_bounds n2 ub) = Ok v2
      /\ reshape2 (v1 ++ v2) (n1 + n2) (length lb) = Ok new
      /\ concatenate0 (experiment prev) new = Ok (experiment E2).
Proof.
  intros n1 n2 lb ub theta1 theta2 sm1 sm2 mz1 mz2 prev E1 E2 H1 H2.
  pose proof (DDesign_outcome n1 lb ub theta1 sm1 mz1 prev) as O1.
  rewrite H1 in O1. destruct O1 as (v1 & Hv1 & Hl1 & Hc1 & ->).
  pose proof (DDesign_outcome n2 lb ub theta2 sm2 mz2
                (Build_Experiment
                   {| nrows := nrows (experiment prev) + n1;
                      ncols := ncols (experiment prev);
                      buf := buf (experiment prev) ++ v1 |}
                   DDesign.name)) as O2.
  rewrite H2 in O2. destruct O2 as (v2 & Hv2 & Hl2 & Hc2 & ->).
  simpl in *.
  exists v1, v2, {| nrows := n1 + n2; ncols := length lb; buf := v1 ++ v2 |}.
  split; [exact Hv1 |]. split; [exact Hv2 |].
  split; [apply reshape2_ok; rewrite length_app, Hl1, Hl2; lia |].
  rewrite concatenate0_ok by exact Hc1. simpl.
  rewrite Nat.add_assoc, app_assoc. reflexivity.
Qed.

Lemma DDesign_twice_accumulates_witness :
  exists new,
    reshape2 ([0; 5] ++ [0; 5; 0; 5]) (1 + 2) 2 = Ok new
    /\ concatenate0 (experiment two_points) new
       = Ok {| nrows := 5; ncols := 2;
               buf := [1; 2; 3; 4; 0; 5; 0; 5; 0; 5] |}.
Proof.
  destruct (DDesign_twice_accumulates 1 2 [0; 5] [9; 9] [1] [1]
              row_count_model row_count_model
              lower_bound_minimizer lower_bound_minimizer two_points
              (Build_Experiment
                 {| nrows := 3; ncols := 2; buf := [1; 2; 3; 4; 0; 5] |}
                 DDesign.name)
              (Build_Experiment
                 {| nrows := 5; ncols := 2;
                    buf := [1; 2; 3; 4; 0; 5; 0; 5; 0; 5] |}
                 DDesign.name)
              eq_refl eq_refl)
    as (v1 & v2 & new & Hv1 & Hv2 & Hr & Hc).
  injection Hv1 as <-. injection Hv2 as <-.
  exists new. split; assumption.
Defined.

(** X17.  With [number_designs = 0] the minimizer is called with empty bounds;
    the constructor succeeds only when it returns the empty vector, and the
    design is then the previous experiment's array, unchanged. *)
Theorem DDesign_zero_points :
  forall (lb ub theta : vec) (sm : StatisticalModel) (mz : Minimizer)
         (prev E : Experiment),
    DDesign.__init__ 0 lb ub theta sm mz (Some prev) = Ok E ->
    minimize mz (DDesign.objective 0 lb theta sm (Some prev)) [] [] = Ok []
    /\ experiment E = experiment prev.
Proof.
  intros lb ub theta sm mz prev E HE.
  pose proof (DDesign_outcome 0 lb ub theta sm mz prev) as Hout.
  rewrite HE in Hout. destruct Hout as (v & Hv & Hlen & _ & ->).
  simpl in Hlen. destruct v; [| discriminate].
  split; [exact Hv |].
  simpl. rewrite Nat.add_0_r, app_nil_r.
  destruct (experiment prev); reflexivity.
Qed.

Lemma DDesign_zero_points_witness :
  minimize lower_bound_minimizer
    (DDesign.objective 0 [0; 5] [1] row_count_model (Some two_points)) [] []
  = Ok []
  /\ {| nrows := 2; ncols := 2; buf := [1; 2; 3; 4] |}
     = experiment two_points.
Proof.
  apply (DDesign_zero_points [0; 5] [9; 9] [1] row_count_model
           lower_bound_minimizer two_points
           (Build_Experiment
              {| nrows := 2; ncols := 2; buf := [1; 2; 3; 4] |}
              DDesign.name)).
  reflexivity.
Defined.

(** ** PointPredictionDesign: outcomes and objective *)

(** X18.  The outcome of [PointPredictionDesign.__init__]: it succeeds exactly
    when the minimizer returns a vector with as many entries as there are
    lower bounds, and the design is that vector as a single row; an exception
    of the minimizer is passed on and a vector of another size raises
    [ValueError].  The length of the upper bounds is never checked. *)
Theorem PointPredictionDesign_outcome :
  forall (lb ub : vec) (mz : Minimizer)
         (pfu : ParametricFunctionWithUncertainty) (alpha : R),
    match PointPredictionDesign.__init__ lb ub mz pfu alpha with
    | Ok E =>
        exists v,
          minimize mz (PointPredictionDesign.objective pfu alpha) lb ub = Ok v
          /\ length v = length lb
          /\ E = Build_Experiment
                   {| nrows := 1; ncols := length lb; buf := v |}
                   PointPredictionDesign.name
    | Raise e =>
        minimize mz (PointPredictionDesign.objective pfu alpha) lb ub
        = Raise e
        \/ exists v,
             minimize mz (PointPredictionDesign.objective pfu alpha) lb ub
             = Ok v
             /\ length v <> length lb
             /\ e = ValueError
    end.
Proof.
  intros lb ub mz pfu alpha.
  unfold PointPredictionDesign.__init__.
  destruct (minimize mz _ _ _) as [v|e] eqn:Hv; simpl; [| left; reflexivity].
  unfold reshape2.
  destruct (Nat.eqb_spec (length v) (1 * length lb)) as [Hlen|Hlen]; simpl.
  - exists v. repeat split. lia.
  - right. exists v. repeat split. lia.
Qed.

Lemma np_sum_zip_with_minus_split (a b : vec) :
  length a = length b ->
  np_sum (zip_with Rminus a b) = np_sum a - np_sum b.
Proof.
  unfold np_sum.
  revert b; induction a as [|u a IH]; intros [|w b] H; simpl in *;
    try discriminate; [ring |].
  rewrite IH by lia. ring.
Qed.

(** X19.  Where the two quantile arrays have the same length, the objective
    is the sum of the [1 - alpha]-quantiles minus the sum of the
    [alpha]-quantiles; it is at most 0 when no [1 - alpha]-quantile exceeds
    the matching [alpha]-quantile. *)
Theorem point_prediction_objective_sums :
  forall (pfu : ParametricFunctionWithUncertainty) (alpha : R)
         (x qa qb : vec),
    calculate_quantile pfu x alpha = Ok qa ->
    calculate_quantile pfu x (1 - alpha) = Ok qb ->
    length qa = length qb ->
    PointPredictionDesign.objective pfu alpha x
    = Ok (np_sum qb - np_sum qa)
    /\ (Forall2 Rle qb qa -> np_sum qb - np_sum qa <= 0).
Proof.
  intros pfu alpha x qa qb Ha Hb Hlen. split.
  - unfold PointPredictionDesign.objective. rewrite Ha, Hb. simpl.
    rewrite broadcast_same_length by exact Hlen. simpl.
    rewrite np_sum_zip_with_minus_split by exact Hlen. f_equal. ring.
  - intro Hle. clear Ha Hb Hlen. unfold np_sum.
    induction Hle as [|b a qb' qa' Hba _ IH]; simpl; lra.
Qed.

Lemma point_prediction_objective_sums_witness :
  PointPredictionDesign.objective scaled_quantiles (9 / 10) [2; 3]
  = Ok (np_sum [(1 - 9 / 10) * 2; (1 - 9 / 10) * 3]
        - np_sum [9 / 10 * 2; 9 / 10 * 3]).
Proof.
  apply (point_prediction_objective_sums scaled_quantiles (9 / 10) [2; 3]
           [9 / 10 * 2; 9 / 10 * 3] [(1 - 9 / 10) * 2; (1 - 9 / 10) * 3]);
    reflexivity.
Defined.
